(** * consul-service-discovery: the connection manager of [connmanager.go]

    A shallow embedding of package [consul_service_discovery]: the pool of
    gRPC connections keyed by service name ([replaceConn], [GetConn],
    [CloseAll], [Stop]), the constructor [New] with its functional options,
    the jittered [backoff], and the body of the blocking-query loop
    [watchService].

    Conventions.
    - A Go pointer that may be nil is an [option]; [None] is nil.
    - Methods with a pointer receiver of type [ConnManager] are state
      transformers over a [World]: the manager itself plus what the calls
      did to objects outside it (how often each connection was closed, how
      many warnings were logged, which queries were sent, how long the
      loop slept).
    - A Go panic is the outcome [Panic]; nothing is observable after it.
    - [sync.RWMutex] serialises the pool operations; each operation below is
      the critical section it executes while holding the lock. *)

From stdpp Require Import gmap gmultiset strings list fin_maps pretty.
From Stdlib Require Import ZArith Lia.

Local Open Scope Z_scope.

(** ** Errors *)

(** [errors.New] builds an [errorString]; [fmt.Errorf] with the verb [%w]
    builds an error that carries its formatted text and wraps another. *)
Inductive error : Type :=
  | errorString (s : string)
  | wrapError (msg : string) (err : error).

Global Instance error_eq_dec : EqDecision error.
Proof. solve_decision. Defined.

(** [Error()] of an error value. *)
Definition Error (e : error) : string :=
  match e with
  | errorString s => s
  | wrapError msg _ => msg
  end.

(** [errors.Is]: walks the chain of wrapped errors. *)
Fixpoint errors_Is (err tgt : error) : bool :=
  bool_decide (err = tgt) ||
  match err with
  | errorString _ => false
  | wrapError _ inner => errors_Is inner tgt
  end.

Definition ErrConnNotFound : error := errorString "grpc_connection_not_found".

(** ** Data model *)

(** The identity (address) of a [grpc.ClientConn] object; a value of Go type
    [*grpc.ClientConn] is an [option ClientConn]. *)
Definition ClientConn : Type := positive.

(** [*api.Client], [*zap.Logger] and [grpc.DialOption] are opaque here. *)
Inductive Client : Type := ConsulClient (id : positive).
Inductive Logger : Type := NopLogger | ZapLogger (id : positive).
Inductive DialOption : Type := InsecureTransport | DialOpt (id : positive).

(** [managedConn] couples a connection with its target address. *)
Record managedConn : Type := mkManagedConn {
  target : string;
  conn : option ClientConn;
}.

Global Instance managedConn_eq_dec : EqDecision managedConn.
Proof. solve_decision. Defined.

(** [ConnManager].  The map values are [*managedConn] in Go; every one of
    them is allocated by [&managedConn{...}] at the point of insertion and
    never shared, so the map holds the records themselves.  [client] and
    [logger] hold the pointees: [New] and [WithLogger] reject nil. *)
Record ConnManager : Type := mkConnManager {
  client : Client;
  watchList : list string;
  conns : gmap string managedConn;
  logger : Logger;
  dialOpts : list DialOption;
  refreshInterval : Z;
}.

Definition set_conns (m : gmap string managedConn) (cm : ConnManager) : ConnManager :=
  {| client := client cm; watchList := watchList cm; conns := m;
     logger := logger cm; dialOpts := dialOpts cm;
     refreshInterval := refreshInterval cm |}.

Definition set_logger (l : Logger) (cm : ConnManager) : ConnManager :=
  {| client := client cm; watchList := watchList cm; conns := conns cm;
     logger := l; dialOpts := dialOpts cm;
     refreshInterval := refreshInterval cm |}.

Definition set_refreshInterval (d : Z) (cm : ConnManager) : ConnManager :=
  {| client := client cm; watchList := watchList cm; conns := conns cm;
     logger := logger cm; dialOpts := dialOpts cm;
     refreshInterval := d |}.

Definition set_dialOpts (o : list DialOption) (cm : ConnManager) : ConnManager :=
  {| client := client cm; watchList := watchList cm; conns := conns cm;
     logger := logger cm; dialOpts := o;
     refreshInterval := refreshInterval cm |}.

(** [api.QueryOptions] (the fields the loop sets) and [api.QueryMeta]. *)
Record QueryOptions : Type := mkQueryOptions {
  WaitTime : Z;
  WaitIndex : Z;
  AllowStale : bool;
}.

Record QueryMeta : Type := mkQueryMeta { LastIndex : Z }.

Module AgentService.
Record t : Type := mk { Address : string; Port : Z }.
End AgentService.

Module Node.
Record t : Type := mk { Address : string }.
End Node.

Record ServiceEntry : Type := mkServiceEntry {
  Node : Node.t;
  Service : AgentService.t;
}.

(** ** The world the manager runs in *)

Record World : Type := mkWorld {
  mgr : ConnManager;
  (** one occurrence per call of [Close] on that connection *)
  closeCalls : gmultiset ClientConn;
  (** number of [logger.Warn] calls *)
  warns : nat;
  (** the [QueryOptions] sent to Consul, oldest first *)
  queries : list (string * QueryOptions);
  (** the arguments of [time.Sleep], oldest first *)
  slept : list Z;
}.

Definition with_mgr (f : ConnManager -> ConnManager) (w : World) : World :=
  {| mgr := f (mgr w); closeCalls := closeCalls w; warns := warns w;
     queries := queries w; slept := slept w |}.

Definition with_close (h : ClientConn) (w : World) : World :=
  {| mgr := mgr w; closeCalls := closeCalls w ⊎ {[+ h +]}; warns := warns w;
     queries := queries w; slept := slept w |}.

Definition with_warn (w : World) : World :=
  {| mgr := mgr w; closeCalls := closeCalls w; warns := S (warns w);
     queries := queries w; slept := slept w |}.

Definition with_query (service : string) (q : QueryOptions) (w : World) : World :=
  {| mgr := mgr w; closeCalls := closeCalls w; warns := warns w;
     queries := queries w ++ [(service, q)]; slept := slept w |}.

Definition with_sleep (d : Z) (w : World) : World :=
  {| mgr := mgr w; closeCalls := closeCalls w; warns := warns w;
     queries := queries w; slept := slept w ++ [d] |}.

(** ** The monad of manager operations *)

Inductive outcome (A : Type) : Type :=
  | Done (a : A) (w : World)
  | Panic (msg : string).
Arguments Done {A} a w.
Arguments Panic {A} msg.

Definition M (A : Type) : Type := World -> outcome A.

Global Instance M_ret : MRet M := fun A a w => Done a w.
Global Instance M_bind : MBind M := fun A B f m w =>
  match m w with
  | Done a w' => f a w'
  | Panic msg => Panic msg
  end.

Definition getMgr : M ConnManager := fun w => Done (mgr w) w.
Definition modifyMgr (f : ConnManager -> ConnManager) : M unit :=
  fun w => Done tt (with_mgr f w).
Definition panic {A} (msg : string) : M A := fun _ => Panic msg.
Definition Warn : M unit := fun w => Done tt (with_warn w).
Definition Sleep (d : Z) : M unit := fun w => Done tt (with_sleep d w).

Definition nil_dereference : string :=
  "invalid memory address or nil pointer dereference".

(** ** The pool *)

Section Pool.

(** What [Close] returns is the transport's business (gRPC reports a
    second [Close] of a connection as an error, the test double never
    fails); the manager only logs or drops it. *)
Variable closeErr : gmultiset ClientConn -> ClientConn -> option error.

(** [c.Close()] on a [*grpc.ClientConn]: a nil receiver is dereferenced. *)
Definition Close (c : option ClientConn) : M (option error) := fun w =>
  match c with
  | None => Panic nil_dereference
  | Some h => Done (closeErr (closeCalls w) h) (with_close h w)
  end.

(** [replaceConn] swaps an existing connection; [c] and [tgt] are the
    parameters [conn] and [target] of the Go function. *)
Definition replaceConn (service : string) (c : option ClientConn) (tgt : string)
  : M unit :=
  cm ← getMgr;
  if (match conns cm !! service with
      | Some existing => bool_decide (target existing = tgt)
      | None => false
      end)
  then
    (if c is Some _ then _ ← Close c; mret tt else mret tt)
  else
    _ ← (if conns cm !! service is Some old
         then _ ← Close (conn old); mret tt
         else mret tt);
    (if c is Some _
     then modifyMgr (fun cm => set_conns (<[service := mkManagedConn tgt c]> (conns cm)) cm)
     else modifyMgr (fun cm => set_conns (delete service (conns cm)) cm)).

(** [GetConn]: the connection held for [service], or a wrapped
    [ErrConnNotFound]. *)
Definition GetConn (service : string) : M (option ClientConn * option error) :=
  cm ← getMgr;
  match conns cm !! service with
  | None =>
      mret (None, Some (wrapError (Error ErrConnNotFound +:+ ": " +:+ service)
                                  ErrConnNotFound))
  | Some mc => mret (conn mc, None)
  end.

(** The body of [for name, mc := range cm.conns] in [CloseAll], over the
    entries in the order the runtime happens to visit them. *)
Fixpoint closeEach (l : list (string * managedConn)) : M unit :=
  match l with
  | [] => mret tt
  | (_, mc) :: rest =>
      err ← Close (conn mc);
      _ ← (if err is Some _ then Warn else mret tt);
      closeEach rest
  end.

(** [CloseAll], for a given visiting order of the map. *)
Definition CloseAll_in (order : list (string * managedConn)) : M unit :=
  _ ← closeEach order;
  modifyMgr (set_conns ∅).

Definition CloseAll : M unit :=
  cm ← getMgr;
  CloseAll_in (map_to_list (conns cm)).

(** [Stop] only drains the pool. *)
Definition Stop : M unit := CloseAll.

End Pool.

(** ** Construction and functional options *)

(** An [Option] is a function from a pointer to the manager to an error:
    the manager as the function leaves it is returned next to the error. *)
Definition Option : Type := ConnManager -> ConnManager * option error.

Definition WithLogger (l : option Logger) : Option := fun cm =>
  match l with
  | None => (cm, Some (errorString "nil logger"))
  | Some l' => (set_logger l' cm, None)
  end.

(** [d] is a [time.Duration], a count of nanoseconds. *)
Definition WithRefreshInterval (d : Z) : Option := fun cm =>
  if bool_decide (d <= 0)
  then (cm, Some (errorString "interval_must_be_positive"))
  else (set_refreshInterval d cm, None).

Definition WithDialOptions (opts : list DialOption) : Option := fun cm =>
  (set_dialOpts (dialOpts cm ++ opts) cm, None).

Definition Second : Z := 1000000000.

(** The loop [for _, opt := range opts] of [New]. *)
Fixpoint applyOptions (opts : list Option) (cm : ConnManager)
  : option ConnManager * option error :=
  match opts with
  | [] => (Some cm, None)
  | opt :: rest =>
      match opt cm with
      | (_, Some err) => (None, Some err)
      | (cm', None) => applyOptions rest cm'
      end
  end.

Definition New (c : option Client) (services : list string) (opts : list Option)
  : option ConnManager * option error :=
  match c with
  | None => (None, Some (errorString "nil_consul_client"))
  | Some c' =>
      if bool_decide (length services = 0%nat)
      then (None, Some (errorString "empty_service_list"))
      else
        applyOptions opts
          {| client := c';
             watchList := [] ++ services;
             conns := ∅;
             logger := NopLogger;
             refreshInterval := 30 * Second;
             dialOpts := [InsecureTransport] |}
  end.

(** The ways a caller obtains an [Option] from this package. *)
Inductive OptionCall : Type :=
  | CallWithLogger (l : option Logger)
  | CallWithRefreshInterval (d : Z)
  | CallWithDialOptions (opts : list DialOption).

Definition option_of (call : OptionCall) : Option :=
  match call with
  | CallWithLogger l => WithLogger l
  | CallWithRefreshInterval d => WithRefreshInterval d
  | CallWithDialOptions opts => WithDialOptions opts
  end.

(** An option call that carries a configuration error. *)
Definition bad_option (call : OptionCall) : bool :=
  match call with
  | CallWithLogger None => true
  | CallWithLogger (Some _) => false
  | CallWithRefreshInterval d => bool_decide (d <= 0)
  | CallWithDialOptions _ => false
  end.

(** The four configuration errors: nil client, empty service list,
    non-positive interval, nil logger. *)
Definition config_error (c : option Client) (services : list string)
    (calls : list OptionCall) : bool :=
  bool_decide (c = None) || bool_decide (services = []) || existsb bad_option calls.

(** ** Random numbers and the backoff *)

(** Two's-complement wrap-around of [int64] arithmetic. *)
Definition int64 (z : Z) : Z := (z + 2 ^ 63) `mod` 2 ^ 64 - 2 ^ 63.

Definition MaxInt64 : Z := 2 ^ 63 - 1.

(** [rand.Int63n(n)] and [rand.Intn(n)] panic unless [n > 0] and otherwise
    return a number of [[0, n)]; [draw] is what the generator produces, and
    every number of the range is reached by some draw. *)
Definition Int63n (n : Z) (draw : Z) : M Z :=
  if bool_decide (n <= 0) then panic "invalid argument to Int63n"
  else mret (draw `mod` n).

Definition Intn (n : Z) (draw : Z) : M Z :=
  if bool_decide (n <= 0) then panic "invalid argument to Intn"
  else mret (draw `mod` n).

(** [backoff] returns the jittered sleep duration; [/] on [int64] truncates. *)
Definition backoff (base : Z) (draw : Z) : M Z :=
  let delta := base `quot` 2 in
  r ← Int63n delta draw;
  mret (int64 (base + r)).

(** ** The discovery loop *)

(** What the outside world answers during one iteration of [watchService]:
    whether the context is done, the result of the health query, the two
    random draws, the result of [net.LookupHost] and of [grpc.NewClient]. *)
Record Responses : Type := mkResponses {
  ctxDone : bool;
  healthService : string -> QueryOptions -> (list ServiceEntry * QueryMeta) + error;
  jitter : Z;
  pick : Z;
  lookupHost : string -> option error;
  newClient : string -> list DialOption -> ClientConn + error;
}.

Definition sendQuery (service : string) (q : QueryOptions) : M unit :=
  fun w => Done tt (with_query service q w).

(** [entries[i]] *)
Definition index (entries : list ServiceEntry) (i : Z) : M ServiceEntry :=
  match entries !! Z.to_nat i with
  | Some e => if bool_decide (0 <= i) then mret e else panic "index out of range"
  | None => panic "index out of range"
  end.

(** [fmt.Sprintf(addrTemplate, addr, port)] with [addrTemplate = "%s:%d"]. *)
Definition addrTemplate (addr : string) (port : Z) : string :=
  addr +:+ ":" +:+ pretty port.

Section Discovery.

Variable closeErr : gmultiset ClientConn -> ClientConn -> option error.

(** One pass through the body of the [for] loop of [watchService], started
    with the local variable [waitIdx]: [None] when the function returns,
    [Some i] when the loop goes round again with [waitIdx = i]. *)
Definition watchService_iter (service : string) (env : Responses) (waitIdx : Z)
  : M (option Z) :=
  if ctxDone env then mret None
  else
    cm ← getMgr;
    let q := {| WaitTime := refreshInterval cm; WaitIndex := waitIdx;
                AllowStale := false |} in
    _ ← sendQuery service q;
    match healthService env service q with
    | inr err =>
        _ ← Warn;
        d ← backoff (refreshInterval cm) (jitter env);
        _ ← Sleep d;
        mret (Some waitIdx)
    | inl (entries, meta) =>
        let waitIdx := LastIndex meta in
        if bool_decide (length entries = 0%nat)
        then
          _ ← Warn;
          _ ← replaceConn closeErr service None "";
          mret (Some waitIdx)
        else
          i ← Intn (Z.of_nat (length entries)) (pick env);
          selected ← index entries i;
          let addr := AgentService.Address (Service selected) in
          let addr := if bool_decide (addr = "")
                      then Node.Address (Node selected) else addr in
          match lookupHost env addr with
          | Some err => _ ← Warn; mret (Some waitIdx)
          | None =>
              let tgt := addrTemplate addr (AgentService.Port (Service selected)) in
              match newClient env tgt (dialOpts cm) with
              | inr err => _ ← Warn; mret (Some waitIdx)
              | inl c =>
                  _ ← replaceConn closeErr service (Some c) tgt;
                  mret (Some waitIdx)
              end
          end
    end.



End Discovery.

(** ** Invariants and observations used by the theorems *)

(** Every entry of the pool holds a non-nil connection. *)
Definition pool_ok (cm : ConnManager) : Prop :=
  map_Forall (fun _ mc => is_Some (conn mc)) (conns cm).

(** The connections held by a pool, one occurrence per entry. *)
Definition held (m : gmap string managedConn) : gmultiset ClientConn :=
  list_to_set_disj (omap (fun kv => conn kv.2) (map_to_list m)).

(** How often [h] has been closed so far. *)
Definition closeCount (h : ClientConn) (w : World) : nat :=
  multiplicity h (closeCalls w).

(** The calls a client of the pool can make, and their execution in order. *)
Inductive call : Type :=
  | CallReplaceConn (service : string) (c : option ClientConn) (tgt : string)
  | CallGetConn (service : string)
  | CallCloseAll
  | CallStop.

Definition run_call (closeErr : gmultiset ClientConn -> ClientConn -> option error)
    (c : call) : M unit :=
  match c with
  | CallReplaceConn service c tgt => replaceConn closeErr service c tgt
  | CallGetConn service => _ ← GetConn service; mret tt
  | CallCloseAll => CloseAll closeErr
  | CallStop => Stop closeErr
  end.

Fixpoint run_calls (closeErr : gmultiset ClientConn -> ClientConn -> option error)
    (cs : list call) : M unit :=
  match cs with
  | [] => mret tt
  | c :: rest => _ ← run_call closeErr c; run_calls closeErr rest
  end.

(** The [Close] of the test double [mockConn]: it never fails. *)
Definition mockClose : gmultiset ClientConn -> ClientConn -> option error :=
  fun _ _ => None.

(** A manager as [New] leaves it, around a given pool. *)
Definition manager_with (m : gmap string managedConn) : ConnManager :=
  {| client := ConsulClient 1; watchList := ["users"]; conns := m;
     logger := NopLogger; dialOpts := [InsecureTransport];
     refreshInterval := 30 * Second |}.

Definition world_with (m : gmap string managedConn) : World :=
  {| mgr := manager_with m; closeCalls := ∅; warns := 0; queries := [];
     slept := [] |}.

(** The pools of the unit tests and of the scenarios. *)
Definition pool_svc : gmap string managedConn :=
  {[ "svc" := mkManagedConn "target1" (Some 1%positive) ]}.

Definition pool_users : gmap string managedConn :=
  {[ "users" := mkManagedConn "10.0.0.1:9000" (Some 1%positive) ]}.


(** The connection behind a pointer, as a multiset: empty for nil. *)
Definition conn_set (c : option ClientConn) : gmultiset ClientConn :=
  match c with
  | Some h => {[+ h +]}
  | None => ∅
  end.

(** The connections handed to [replaceConn] by a sequence of calls. *)
Fixpoint submitted (cs : list call) : gmultiset ClientConn :=
  match cs with
  | [] => ∅
  | CallReplaceConn _ c _ :: rest => conn_set c ⊎ submitted rest
  | _ :: rest => submitted rest
  end.

(** No entry of the pool is filed under the empty target. *)
Definition targets_nonempty (cm : ConnManager) : Prop :=
  map_Forall (fun _ mc => target mc <> "") (conns cm).

(** What a list of option calls asks for: the intervals, the loggers and the
    dial options, in the order of the calls. *)
Definition intervals (calls : list OptionCall) : list Z :=
  omap (fun call => match call with
                    | CallWithRefreshInterval d => Some d
                    | _ => None
                    end) calls.

Definition loggers (calls : list OptionCall) : list Logger :=
  omap (fun call => match call with
                    | CallWithLogger l => l
                    | _ => None
                    end) calls.

Definition dial_options (calls : list OptionCall) : list DialOption :=
  flat_map (fun call => match call with
                        | CallWithDialOptions opts => opts
                        | _ => []
                        end) calls.

(** The error an option call returns, if it returns one. *)
Definition option_error (call : OptionCall) : option error :=
  match call with
  | CallWithLogger None => Some (errorString "nil logger")
  | CallWithRefreshInterval d =>
      if bool_decide (d <= 0) then Some (errorString "interval_must_be_positive")
      else None
  | _ => None
  end.

(** The first failing check, in the order client, service list, options
    from left to right. *)
Definition first_error (c : option Client) (services : list string)
    (calls : list OptionCall) : option error :=
  match c, services with
  | None, _ => Some (errorString "nil_consul_client")
  | Some _, [] => Some (errorString "empty_service_list")
  | Some _, _ :: _ => head (omap option_error calls)
  end.

(** The address and the target the loop derives from a service entry. *)
Definition instance_addr (e : ServiceEntry) : string :=
  if bool_decide (AgentService.Address (Service e) = "")
  then Node.Address (Node e)
  else AgentService.Address (Service e).

Definition instance_target (e : ServiceEntry) : string :=
  addrTemplate (instance_addr e) (AgentService.Port (Service e)).

(** The query the loop sends for [service] when its variable is [waitIdx]. *)
Definition query_of (cm : ConnManager) (waitIdx : Z) : QueryOptions :=
  {| WaitTime := refreshInterval cm; WaitIndex := waitIdx; AllowStale := false |}.

(** What an iteration whose query succeeded can have done, given the world
    [w0] right after the query was sent: removed the service for want of
    instances, given up on an unresolvable host or a failed dial, or
    submitted a connection to one of the instances returned. *)
Inductive submission
    (closeErr : gmultiset ClientConn -> ClientConn -> option error)
    (service : string) (env : Responses) (entries : list ServiceEntry)
    (w0 w' : World) : Prop :=
  | NoInstances :
      entries = [] ->
      replaceConn closeErr service None "" (with_warn w0) = Done tt w' ->
      submission closeErr service env entries w0 w'
  | Unresolvable (e : ServiceEntry) (err : error) :
      e ∈ entries ->
      lookupHost env (instance_addr e) = Some err ->
      w' = with_warn w0 ->
      submission closeErr service env entries w0 w'
  | DialFailed (e : ServiceEntry) (err : error) :
      e ∈ entries ->
      lookupHost env (instance_addr e) = None ->
      newClient env (instance_target e) (dialOpts (mgr w0)) = inr err ->
      w' = with_warn w0 ->
      submission closeErr service env entries w0 w'
  | Submitted (e : ServiceEntry) (c : ClientConn) :
      e ∈ entries ->
      lookupHost env (instance_addr e) = None ->
      newClient env (instance_target e) (dialOpts (mgr w0)) = inl c ->
      replaceConn closeErr service (Some c) (instance_target e) w0 = Done tt w' ->
      submission closeErr service env entries w0 w'.

(** An instance registered without a service address, on node 10.0.0.9. *)
Definition entry_on_node : ServiceEntry :=
  {| Node := Node.mk "10.0.0.9"; Service := AgentService.mk "" 9000 |}.

(** Answers of the outside world in which the query succeeds: with one
    instance that resolves and dials, with one instance whose host does not
    resolve, and with no instance. *)
Definition env_up : Responses :=
  {| ctxDone := false;
     healthService := fun _ _ => inl ([entry_on_node], mkQueryMeta 42);
     jitter := 0;
     pick := 7;
     lookupHost := fun _ => None;
     newClient := fun _ _ => inl 5%positive |}.


Definition env_no_instances : Responses :=
  {| ctxDone := false;
     healthService := fun _ _ => inl ([], mkQueryMeta 43);
     jitter := 0;
     pick := 7;
     lookupHost := fun _ => None;
     newClient := fun _ _ => inl 5%positive |}.

(** * Theorems *)

Ltac run_M :=
  unfold mbind, M_bind, mret, M_ret, getMgr, modifyMgr, panic; simpl.

Section PoolFacts.

Variable closeErr : gmultiset ClientConn -> ClientConn -> option error.

Lemma with_mgr_conns f w :
  conns (mgr (with_mgr f w)) = conns (f (mgr w)).
Proof. reflexivity. Qed.


Lemma with_mgr_id w : with_mgr (fun cm => cm) w = w.
Proof. by destruct w. Qed.

(** The same-target branch of [replaceConn]. *)
Lemma replaceConn_same w service c tgt existing :
  conns (mgr w) !! service = Some existing ->
  target existing = tgt ->
  replaceConn closeErr service c tgt w =
    match c with Some h => Done tt (with_close h w) | None => Done tt w end.
Proof.
  intros Hs Ht. unfold replaceConn. run_M. rewrite Hs.
  rewrite bool_decide_eq_true_2 by done. by destruct c.
Qed.

(** The other branch, with an entry whose connection is [hold]. *)
Lemma replaceConn_swap w service c tgt old hold :
  conns (mgr w) !! service = Some old ->
  target old <> tgt ->
  conn old = Some hold ->
  replaceConn closeErr service c tgt w =
    Done tt (with_mgr
      (fun cm => set_conns
         (match c with
          | Some _ => <[service := mkManagedConn tgt c]> (conns cm)
          | None => delete service (conns cm)
          end) cm)
      (with_close hold w)).
Proof.
  intros Hs Ht Hc. unfold replaceConn. run_M. rewrite Hs.
  rewrite bool_decide_eq_false_2 by done. rewrite Hc. run_M. by destruct c.
Qed.

(** The other branch, with no entry for the service. *)
Lemma replaceConn_fresh w service c tgt :
  conns (mgr w) !! service = None ->
  replaceConn closeErr service c tgt w =
    Done tt (with_mgr
      (fun cm => set_conns
         (match c with
          | Some _ => <[service := mkManagedConn tgt c]> (conns cm)
          | None => delete service (conns cm)
          end) cm) w).
Proof.
  intros Hs. unfold replaceConn. run_M. rewrite Hs. by destruct c.
Qed.

(** An entry with a nil connection and another target makes [replaceConn]
    panic. *)
Lemma replaceConn_nil_entry w service c tgt old :
  conns (mgr w) !! service = Some old ->
  target old <> tgt ->
  conn old = None ->
  replaceConn closeErr service c tgt w = Panic nil_dereference.
Proof.
  intros Hs Ht Hc. unfold replaceConn. run_M. rewrite Hs.
  rewrite bool_decide_eq_false_2 by done. by rewrite Hc.
Qed.

(** On a pool whose entries all hold a connection, [replaceConn] returns,
    changes no entry but the one of [service], and installs only an entry
    that holds the non-nil connection it was given. *)
Lemma replaceConn_returns w service c tgt :
  pool_ok (mgr w) ->
  exists w',
    replaceConn closeErr service c tgt w = Done tt w' /\
    (forall other, other <> service ->
       conns (mgr w') !! other = conns (mgr w) !! other) /\
    (conns (mgr w') !! service = conns (mgr w) !! service \/
     conns (mgr w') !! service = None \/
     exists h, c = Some h /\
       conns (mgr w') !! service = Some (mkManagedConn tgt (Some h))) /\
    warns w' = warns w /\ queries w' = queries w /\ slept w' = slept w /\
    refreshInterval (mgr w') = refreshInterval (mgr w) /\
    dialOpts (mgr w') = dialOpts (mgr w).
Proof.
  intros Hok.
  destruct (conns (mgr w) !! service) as [old|] eqn:Hs.
  - destruct (decide (target old = tgt)) as [Ht|Ht].
    + rewrite (replaceConn_same _ _ _ _ _ Hs Ht).
      destruct c; eexists; (split; [reflexivity|]); simpl;
        rewrite ?Hs; repeat split; auto.
    + destruct (Hok _ _ Hs) as [hold Hc].
      rewrite (replaceConn_swap _ _ _ _ _ _ Hs Ht Hc).
      eexists; split; [reflexivity|]. simpl.
      split; [|split].
      * intros other Hne. destruct c; simpl.
        -- by rewrite lookup_insert_ne.
        -- by rewrite lookup_delete_ne.
      * destruct c as [h|]; simpl.
        -- right; right. exists h. by rewrite lookup_insert_eq.
        -- right; left. by rewrite lookup_delete_eq.
      * by repeat split.
  - rewrite (replaceConn_fresh _ _ _ _ Hs).
    eexists; split; [reflexivity|]. simpl.
    split; [|split].
    + intros other Hne. destruct c; simpl.
      * by rewrite lookup_insert_ne.
      * by rewrite lookup_delete_ne.
    + destruct c as [h|]; simpl.
      * right; right. exists h. by rewrite lookup_insert_eq.
      * right; left. by rewrite lookup_delete_eq.
    + by repeat split.
Qed.

Lemma replaceConn_pool_ok w w' service c tgt :
  pool_ok (mgr w) ->
  replaceConn closeErr service c tgt w = Done tt w' ->
  pool_ok (mgr w').
Proof.
  intros Hok Hrun.
  destruct (replaceConn_returns w service c tgt Hok) as (w2 & Hrun2 & Hfr & Hsvc & _).
  rewrite Hrun in Hrun2. injection Hrun2 as <-.
  intros k mc Hk. destruct (decide (k = service)) as [->|Hne].
  - destruct Hsvc as [Heq|[Heq|(h & -> & Heq)]].
    + rewrite Heq in Hk. by apply (Hok _ _ Hk).
    + congruence.
    + rewrite Heq in Hk. injection Hk as <-. by eexists.
  - rewrite (Hfr _ Hne) in Hk. by apply (Hok _ _ Hk).
Qed.

End PoolFacts.

Lemma closeCount_with_close h w :
  closeCount h (with_close h w) = S (closeCount h w).
Proof.
  unfold closeCount. simpl.
  rewrite multiplicity_disj_union, multiplicity_singleton_eq. lia.
Qed.

Lemma closeCount_with_close_ne h h' w :
  h' <> h -> closeCount h' (with_close h w) = closeCount h' w.
Proof.
  intros Hne. unfold closeCount. simpl.
  rewrite multiplicity_disj_union, multiplicity_singleton_ne by done. lia.
Qed.

(** C1: when the pool holds an entry for the service whose target equals the
    target passed with a new (non-nil) connection, [replaceConn] returns
    after closing the new connection once; it closes no other connection,
    leaves the whole manager as it was, so the existing entry (target and
    connection) stays installed and nothing new is installed. *)
Theorem replaceConn_same_target_keeps_entry
    (closeErr : gmultiset ClientConn -> ClientConn -> option error)
    (w : World) (service : string) (existing : managedConn)
    (h : ClientConn) (tgt : string) :
  conns (mgr w) !! service = Some existing ->
  target existing = tgt ->
  exists w',
    replaceConn closeErr service (Some h) tgt w = Done tt w' /\
    closeCalls w' = closeCalls w ⊎ {[+ h +]} /\
    closeCount h w' = S (closeCount h w) /\
    (forall h', h' <> h -> closeCount h' w' = closeCount h' w) /\
    mgr w' = mgr w /\
    conns (mgr w') !! service = Some existing.
Proof.
  intros Hs Ht. exists (with_close h w).
  rewrite (replaceConn_same closeErr w service (Some h) tgt existing Hs Ht).
  repeat split; auto using closeCount_with_close, closeCount_with_close_ne.
Qed.

Lemma replaceConn_same_target_keeps_entry_witness :
  conns (mgr (world_with pool_svc)) !! "svc"
    = Some (mkManagedConn "target1" (Some 1%positive)) /\
  exists w',
    replaceConn mockClose "svc" (Some 2%positive) "target1" (world_with pool_svc)
      = Done tt w' /\
    closeCalls w' = closeCalls (world_with pool_svc) ⊎ {[+ 2%positive +]} /\
    closeCount 2%positive w' = S (closeCount 2%positive (world_with pool_svc)) /\
    (forall h', h' <> 2%positive ->
       closeCount h' w' = closeCount h' (world_with pool_svc)) /\
    mgr w' = mgr (world_with pool_svc) /\
    conns (mgr w') !! "svc" = Some (mkManagedConn "target1" (Some 1%positive)).
Proof.
  split; [reflexivity|].
  apply (replaceConn_same_target_keeps_entry mockClose (world_with pool_svc)
           "svc" (mkManagedConn "target1" (Some 1%positive)) 2%positive "target1");
    reflexivity.
Defined.

(** Repeating the same resolution any number of times: every connection
    passed is closed and the manager never changes. *)
Lemma replaceConn_same_target_repeated
    (closeErr : gmultiset ClientConn -> ClientConn -> option error)
    (hs : list ClientConn) (w : World) (service : string)
    (existing : managedConn) :
  conns (mgr w) !! service = Some existing ->
  exists w',
    run_calls closeErr
      ((fun h => CallReplaceConn service (Some h) (target existing)) <$> hs) w
      = Done tt w' /\
    mgr w' = mgr w /\
    closeCalls w' = closeCalls w ⊎ list_to_set_disj hs.
Proof.
  revert w. induction hs as [|h hs IH]; intros w Hs.
  - exists w. repeat split. simpl. multiset_solver.
  - assert (Hs1 : conns (mgr (with_close h w)) !! service = Some existing) by done.
    destruct (IH _ Hs1) as (w2 & Hrun2 & Hm2 & Hcl2).
    exists w2. split; [|split].
    + simpl. unfold mbind, M_bind. simpl.
      rewrite (replaceConn_same closeErr w service (Some h) _ existing Hs eq_refl).
      exact Hrun2.
    + by rewrite Hm2.
    + rewrite Hcl2. simpl. multiset_solver.
Qed.

(** C2: when the pool holds an entry for the service and a new (non-nil)
    connection arrives with a different target, [replaceConn] returns after
    closing the old entry's connection exactly once (that is the only
    [Close] it issues), and the pool then maps the service to the new target
    and the new connection, which is what [GetConn] returns. *)
Theorem replaceConn_new_target_swaps
    (closeErr : gmultiset ClientConn -> ClientConn -> option error)
    (w : World) (service : string) (old : managedConn)
    (hold h : ClientConn) (tgt : string) :
  conns (mgr w) !! service = Some old ->
  conn old = Some hold ->
  target old <> tgt ->
  exists w',
    replaceConn closeErr service (Some h) tgt w = Done tt w' /\
    closeCalls w' = closeCalls w ⊎ {[+ hold +]} /\
    closeCount hold w' = S (closeCount hold w) /\
    (forall h', h' <> hold -> closeCount h' w' = closeCount h' w) /\
    conns (mgr w') !! service = Some (mkManagedConn tgt (Some h)) /\
    GetConn service w' = Done (Some h, None) w'.
Proof.
  intros Hs Hc Ht.
  rewrite (replaceConn_swap closeErr w service (Some h) tgt old hold Hs Ht Hc).
  eexists; split; [reflexivity|].
  assert (Hl : forall m : gmap string managedConn,
             <[service := mkManagedConn tgt (Some h)]> m !! service
             = Some (mkManagedConn tgt (Some h))) by (intros; apply lookup_insert_eq).
  repeat split.
  - apply (closeCount_with_close hold w).
  - intros h' Hne. by apply (closeCount_with_close_ne hold h' w).
  - simpl. apply Hl.
  - unfold GetConn. run_M. by rewrite Hl.
Qed.

Lemma replaceConn_new_target_swaps_witness :
  (conns (mgr (world_with pool_svc)) !! "svc"
     = Some (mkManagedConn "target1" (Some 1%positive)) /\
   "target1" <> "target2") /\
  exists w',
    replaceConn mockClose "svc" (Some 2%positive) "target2" (world_with pool_svc)
      = Done tt w' /\
    closeCalls w' = closeCalls (world_with pool_svc) ⊎ {[+ 1%positive +]} /\
    closeCount 1%positive w' = S (closeCount 1%positive (world_with pool_svc)) /\
    (forall h', h' <> 1%positive ->
       closeCount h' w' = closeCount h' (world_with pool_svc)) /\
    conns (mgr w') !! "svc" = Some (mkManagedConn "target2" (Some 2%positive)) /\
    GetConn "svc" w' = Done (Some 2%positive, None) w'.
Proof.
  split; [split; [reflexivity|discriminate]|].
  apply (replaceConn_new_target_swaps mockClose (world_with pool_svc)
           "svc" (mkManagedConn "target1" (Some 1%positive))
           1%positive 2%positive "target2");
    [reflexivity|reflexivity|discriminate].
Defined.

(** [GetConn] never panics and never changes the world. *)
Lemma GetConn_run (w : World) (service : string) :
  GetConn service w =
    Done (match conns (mgr w) !! service with
          | Some mc => (conn mc, None)
          | None =>
              (None, Some (wrapError ("grpc_connection_not_found: " +:+ service)
                                     ErrConnNotFound))
          end) w.
Proof. unfold GetConn. run_M. by destruct (conns (mgr w) !! service). Qed.

Lemma errors_Is_wrapped (msg : string) (e : error) :
  errors_Is (wrapError msg e) e = true.
Proof.
  simpl. apply orb_true_iff. right.
  destruct e; simpl; by rewrite bool_decide_eq_true_2.
Qed.

(** C3, as stated, fails: a call with a nil connection whose target
    argument equals the target of the existing entry takes the same-target
    branch; it returns at once, the entry stays in the pool and its
    connection is not closed. *)
Lemma replaceConn_nil_same_target_keeps_entry :
  replaceConn mockClose "users" None "10.0.0.1:9000" (world_with pool_users)
    = Done tt (world_with pool_users) /\
  conns (mgr (world_with pool_users)) !! "users"
    = Some (mkManagedConn "10.0.0.1:9000" (Some 1%positive)) /\
  closeCount 1%positive (world_with pool_users) = 0%nat.
Proof. repeat split. Qed.

(** The same through the pool's own operations and with the empty target the
    loop passes: an entry installed under the empty target survives
    [replaceConn service nil ""]. *)
Example replaceConn_nil_empty_target_keeps_entry :
  exists w',
    run_calls mockClose
      [CallReplaceConn "users" (Some 1%positive) "";
       CallReplaceConn "users" None ""] (world_with ∅) = Done tt w' /\
    conns (mgr w') !! "users" = Some (mkManagedConn "" (Some 1%positive)) /\
    closeCount 1%positive w' = 0%nat.
Proof. eexists. repeat split. Qed.

(** C3, amended: on a pool whose entries all hold a connection, a call with a
    nil connection whose target argument differs from the target of the
    service's entry (if there is one) returns, closes that entry's
    connection exactly once and nothing else, and leaves the service key
    absent, so that [GetConn] reports [ErrConnNotFound]. *)
Theorem replaceConn_nil_other_target_removes
    (closeErr : gmultiset ClientConn -> ClientConn -> option error)
    (w : World) (service : string) (tgt : string) :
  pool_ok (mgr w) ->
  (forall existing, conns (mgr w) !! service = Some existing ->
     target existing <> tgt) ->
  exists w',
    replaceConn closeErr service None tgt w = Done tt w' /\
    conns (mgr w') !! service = None /\
    (forall existing h,
       conns (mgr w) !! service = Some existing -> conn existing = Some h ->
       closeCalls w' = closeCalls w ⊎ {[+ h +]} /\
       closeCount h w' = S (closeCount h w)) /\
    (conns (mgr w) !! service = None -> closeCalls w' = closeCalls w) /\
    exists err,
      GetConn service w' = Done (None, Some err) w' /\
      errors_Is err ErrConnNotFound = true.
Proof.
  intros Hok Hdiff.
  assert (Hd : forall m : gmap string managedConn, delete service m !! service = None)
    by (intros; apply lookup_delete_eq).
  destruct (conns (mgr w) !! service) as [old|] eqn:Hs.
  - destruct (Hok _ _ Hs) as [hold Hc].
    rewrite (replaceConn_swap closeErr w service None tgt old hold Hs (Hdiff _ eq_refl) Hc).
    eexists; split; [reflexivity|]. split; [apply Hd|]. split; [|split].
    + intros existing h [= <-] Hh. rewrite Hc in Hh. injection Hh as <-.
      split; [reflexivity|]. apply (closeCount_with_close hold w).
    + discriminate.
    + eexists. rewrite GetConn_run. simpl. rewrite Hd.
      split; [reflexivity|]. apply errors_Is_wrapped.
  - rewrite (replaceConn_fresh closeErr w service None tgt Hs).
    eexists; split; [reflexivity|]. split; [apply Hd|]. split; [|split].
    + discriminate.
    + reflexivity.
    + eexists. rewrite GetConn_run. simpl. rewrite Hd.
      split; [reflexivity|]. apply errors_Is_wrapped.
Qed.

Lemma pool_ok_singleton (service tgt : string) (h : ClientConn) :
  pool_ok (manager_with {[ service := mkManagedConn tgt (Some h) ]}).
Proof.
  intros k mc Hk. simpl in Hk.
  apply lookup_singleton_Some in Hk as [_ <-]. by eexists.
Qed.

Lemma pool_ok_empty (cm : ConnManager) : conns cm = ∅ -> pool_ok cm.
Proof. intros He k mc Hk. rewrite He in Hk. by rewrite lookup_empty in Hk. Qed.

Lemma replaceConn_nil_other_target_removes_witness :
  exists w',
    replaceConn mockClose "svc" None "target2" (world_with pool_svc) = Done tt w' /\
    conns (mgr w') !! "svc" = None /\
    (forall existing h,
       conns (mgr (world_with pool_svc)) !! "svc" = Some existing ->
       conn existing = Some h ->
       closeCalls w' = closeCalls (world_with pool_svc) ⊎ {[+ h +]} /\
       closeCount h w' = S (closeCount h (world_with pool_svc))) /\
    (conns (mgr (world_with pool_svc)) !! "svc" = None ->
       closeCalls w' = closeCalls (world_with pool_svc)) /\
    exists err,
      GetConn "svc" w' = Done (None, Some err) w' /\
      errors_Is err ErrConnNotFound = true.
Proof.
  apply (replaceConn_nil_other_target_removes mockClose (world_with pool_svc)
           "svc" "target2").
  - apply pool_ok_singleton.
  - intros existing [= <-]. discriminate.
Defined.

(** C4: [GetConn] always returns and leaves the world as it found it; with
    an entry for the service it returns that entry's connection and a nil
    error, without one it returns a nil connection and an error that wraps
    [ErrConnNotFound] and names the service. *)
Theorem GetConn_found_or_not_found (w : World) (service : string) :
  exists r,
    GetConn service w = Done r w /\
    match conns (mgr w) !! service with
    | Some mc => r = (conn mc, None)
    | None =>
        exists err,
          r = (None, Some err) /\
          errors_Is err ErrConnNotFound = true /\
          Error err = "grpc_connection_not_found: " +:+ service
    end.
Proof.
  eexists. split; [apply GetConn_run|].
  destruct (conns (mgr w) !! service); [reflexivity|].
  eexists. split; [reflexivity|]. split; [apply errors_Is_wrapped|reflexivity].
Qed.

(** Scenario A and the lookup of a service that was never installed. *)
Example GetConn_scenarios :
  GetConn "users" (world_with pool_users)
    = Done (Some 1%positive, None) (world_with pool_users) /\
  GetConn "billing" (world_with pool_users)
    = Done (None, Some (wrapError "grpc_connection_not_found: billing"
                                  ErrConnNotFound))
           (world_with pool_users).
Proof. split; reflexivity. Qed.

(** C10: whatever the pool, a call of [replaceConn] that returns leaves the
    entry of every other service name as it was; and on a pool whose
    entries all hold a connection the call does return. *)
Theorem replaceConn_frame
    (closeErr : gmultiset ClientConn -> ClientConn -> option error)
    (w : World) (service : string) (c : option ClientConn) (tgt : string)
    (other : string) :
  other <> service ->
  (forall w',
     replaceConn closeErr service c tgt w = Done tt w' ->
     conns (mgr w') !! other = conns (mgr w) !! other) /\
  (pool_ok (mgr w) ->
   exists w', replaceConn closeErr service c tgt w = Done tt w').
Proof.
  intros Hne. split.
  - intros w' Hrun.
    destruct (conns (mgr w) !! service) as [old|] eqn:Hs.
    + destruct (decide (target old = tgt)) as [Ht|Ht].
      * rewrite (replaceConn_same closeErr w service c tgt old Hs Ht) in Hrun.
        destruct c; injection Hrun as <-; reflexivity.
      * destruct (conn old) as [hold|] eqn:Hc.
        -- rewrite (replaceConn_swap closeErr w service c tgt old hold Hs Ht Hc) in Hrun.
           injection Hrun as <-. destruct c; simpl.
           ++ by rewrite lookup_insert_ne.
           ++ by rewrite lookup_delete_ne.
        -- by rewrite (replaceConn_nil_entry closeErr w service c tgt old Hs Ht Hc) in Hrun.
    + rewrite (replaceConn_fresh closeErr w service c tgt Hs) in Hrun.
      injection Hrun as <-. destruct c; simpl.
      * by rewrite lookup_insert_ne.
      * by rewrite lookup_delete_ne.
  - intros Hok.
    destruct (replaceConn_returns closeErr w service c tgt Hok) as (w' & Hrun & _).
    by exists w'.
Qed.

Lemma replaceConn_frame_witness :
  "users" <> "svc" /\
  (forall w',
     replaceConn mockClose "svc" (Some 2%positive) "target2" (world_with pool_svc)
       = Done tt w' ->
     conns (mgr w') !! "users" = conns (mgr (world_with pool_svc)) !! "users") /\
  (pool_ok (mgr (world_with pool_svc)) ->
   exists w',
     replaceConn mockClose "svc" (Some 2%positive) "target2" (world_with pool_svc)
       = Done tt w').
Proof.
  split; [discriminate|].
  apply (replaceConn_frame mockClose (world_with pool_svc) "svc" (Some 2%positive)
           "target2" "users").
  discriminate.
Defined.

(** The loop of [CloseAll] over entries that all hold a connection: it
    returns, closes each entry's connection once, and touches neither the
    manager nor the query and sleep records. *)
Lemma closeEach_run
    (closeErr : gmultiset ClientConn -> ClientConn -> option error)
    (l : list (string * managedConn)) (w : World) :
  Forall (fun kv => is_Some (conn kv.2)) l ->
  exists w',
    closeEach closeErr l w = Done tt w' /\
    mgr w' = mgr w /\
    closeCalls w' = closeCalls w ⊎ list_to_set_disj (omap (fun kv => conn kv.2) l) /\
    queries w' = queries w /\ slept w' = slept w /\
    (warns w <= warns w' <= warns w + length l)%nat.
Proof.
  intros Hall. revert w. induction Hall as [|[name mc] l [h Hh] _ IH]; intros w.
  - exists w. simpl. repeat split; try lia. multiset_solver.
  - simpl in Hh. simpl. unfold mbind, M_bind, Close. rewrite Hh.
    destruct (closeErr (closeCalls w) h) as [e|]; simpl.
    + destruct (IH (with_warn (with_close h w)))
        as (w' & Hrun & Hm & Hc & Hq & Hsl & Hwarn).
      exists w'. split; [exact Hrun|]. simpl in *.
      split; [done|]. split; [rewrite Hc; simpl; by rewrite (assoc_L (⊎))|].
      split; [done|]. split; [done|lia].
    + destruct (IH (with_close h w)) as (w' & Hrun & Hm & Hc & Hq & Hsl & Hwarn).
      exists w'. split; [exact Hrun|]. simpl in *.
      split; [done|]. split; [rewrite Hc; simpl; by rewrite (assoc_L (⊎))|].
      split; [done|]. split; [done|lia].
Qed.

(** An entry without a connection makes the loop panic. *)
Lemma closeEach_nil_panics
    (closeErr : gmultiset ClientConn -> ClientConn -> option error)
    (l : list (string * managedConn)) (w : World) :
  Exists (fun kv => conn kv.2 = None) l ->
  closeEach closeErr l w = Panic nil_dereference.
Proof.
  intros Hex. revert w. induction l as [|[name mc] l IH]; intros w.
  - by apply Exists_nil in Hex.
  - simpl. unfold mbind, M_bind, Close.
    destruct (conn mc) as [h|] eqn:Hc; [|done].
    apply Exists_cons in Hex as [Hex|Hex]; [simpl in Hex; congruence|].
    destruct (closeErr (closeCalls w) h); simpl; by apply IH.
Qed.

Lemma CloseAll_unfold
    (closeErr : gmultiset ClientConn -> ClientConn -> option error) (w : World) :
  CloseAll closeErr w = CloseAll_in closeErr (map_to_list (conns (mgr w))) w.
Proof. reflexivity. Qed.



Lemma pool_ok_order (cm : ConnManager) (order : list (string * managedConn)) :
  pool_ok cm ->
  order ≡ₚ map_to_list (conns cm) ->
  Forall (fun kv => is_Some (conn kv.2)) order.
Proof.
  intros Hok Hp. apply Forall_forall. intros [k mc] Hin.
  rewrite Hp in Hin. apply elem_of_map_to_list in Hin. by apply (Hok k mc).
Qed.

Lemma held_elem (m : gmap string managedConn) service mc h :
  m !! service = Some mc -> conn mc = Some h -> h ∈ held m.
Proof.
  intros Hs Hc. unfold held. apply elem_of_list_to_set_disj.
  apply list_elem_of_omap. exists (service, mc). split; [|done].
  by apply elem_of_map_to_list.
Qed.



(** ** Construction *)

(** The options of this package leave the pool, the client and the watch
    list alone. *)
Lemma option_of_keeps (call : OptionCall) (cm cm' : ConnManager) :
  option_of call cm = (cm', None) ->
  conns cm' = conns cm /\ client cm' = client cm /\ watchList cm' = watchList cm.
Proof.
  destruct call as [[l|]|d|opts]; simpl.
  - by intros [= <-].
  - discriminate.
  - unfold WithRefreshInterval. case_bool_decide; [discriminate|]. by intros [= <-].
  - by intros [= <-].
Qed.

Lemma option_of_fails_iff (call : OptionCall) (cm : ConnManager) :
  bad_option call = true <-> exists err, option_of call cm = (cm, Some err).
Proof.
  destruct call as [[l|]|d|opts]; simpl; unfold WithRefreshInterval.
  - split; [discriminate|]. by intros [err [=]].
  - split; [|done]. intros _. by eexists.
  - case_bool_decide.
    + split; [|done]. intros _. by eexists.
    + split; [discriminate|]. by intros [err [=]].
  - split; [discriminate|]. by intros [err [=]].
Qed.

Lemma option_of_ok (call : OptionCall) (cm : ConnManager) :
  bad_option call = false -> exists cm', option_of call cm = (cm', None).
Proof.
  destruct call as [[l|]|d|opts]; simpl; unfold WithRefreshInterval;
    try discriminate; try (intros _; by eexists).
  case_bool_decide; [discriminate|]. intros _. by eexists.
Qed.

Lemma applyOptions_calls (calls : list OptionCall) (cm : ConnManager) :
  if existsb bad_option calls
  then exists err, applyOptions (option_of <$> calls) cm = (None, Some err)
  else exists cm',
         applyOptions (option_of <$> calls) cm = (Some cm', None) /\
         conns cm' = conns cm /\ client cm' = client cm /\
         watchList cm' = watchList cm.
Proof.
  revert cm. induction calls as [|call calls IH]; intros cm; simpl.
  - by exists cm.
  - destruct (bad_option call) eqn:Hbad; simpl.
    + apply (option_of_fails_iff call cm) in Hbad as [err Herr].
      rewrite Herr. by exists err.
    + destruct (option_of_ok call cm Hbad) as [cm1 H1]. rewrite H1.
      destruct (option_of_keeps _ _ _ H1) as (Hc & Hcl & Hwl).
      specialize (IH cm1). destruct (existsb bad_option calls).
      * exact IH.
      * destruct IH as (cm' & Hrun & Hc' & Hcl' & Hwl').
        exists cm'. split; [exact Hrun|]. split; [|split]; congruence.
Qed.

(** C6: with options built by [WithLogger], [WithRefreshInterval] and
    [WithDialOptions], [New] returns a nil manager and an error exactly when
    the client is nil, the service list is empty, an interval option is not
    positive or a logger option is nil; in every other case it returns a
    manager and a nil error.  It never returns both or neither. *)
Theorem New_fails_exactly_on_config_errors
    (c : option Client) (services : list string) (calls : list OptionCall) :
  (config_error c services calls = true <->
     exists err, New c services (option_of <$> calls) = (None, Some err)) /\
  (config_error c services calls = false <->
     exists cm, New c services (option_of <$> calls) = (Some cm, None)).
Proof.
  unfold config_error, New.
  destruct c as [c'|]; simpl.
  2:{ split; split; try done; [by eexists | by intros [cm [=]]]. }
  destruct services as [|s services]; simpl.
  { split; split; try done; [by eexists | by intros [cm [=]]]. }
  match goal with |- context [applyOptions _ ?cm0] =>
    pose proof (applyOptions_calls calls cm0) as Hopts end.
  destruct (existsb bad_option calls).
  - destruct Hopts as [err Herr]. rewrite Herr.
    split; split; try done; [by eexists | by intros [cm [=]]].
  - destruct Hopts as (cm' & Hrun & _). rewrite Hrun.
    split; split; try done; [by intros [err [=]] | by eexists].
Qed.

(** The manager [New] returns: the client and a copy of the service list it
    was given, and an empty pool. *)
Lemma New_result (c : option Client) (services : list string)
    (calls : list OptionCall) (cm : ConnManager) :
  New c services (option_of <$> calls) = (Some cm, None) ->
  conns cm = ∅ /\ c = Some (client cm) /\ watchList cm = services.
Proof.
  unfold New. destruct c as [c'|]; [|discriminate].
  case_bool_decide; [discriminate|].
  match goal with |- context [applyOptions _ ?cm0] =>
    pose proof (applyOptions_calls calls cm0) as Hopts end.
  destruct (existsb bad_option calls).
  - destruct Hopts as [err Herr]. rewrite Herr. discriminate.
  - destruct Hopts as (cm' & Hrun & Hc & Hcl & Hwl). rewrite Hrun.
    intros [= <-]. simpl in *. by rewrite Hcl.
Qed.

(** ** The backoff *)

(** C7, at the failing input: the interval of one nanosecond is accepted by
    [WithRefreshInterval], and [backoff] then panics for every draw, because
    half of it is zero and [rand.Int63n] rejects a bound of zero. *)
Theorem backoff_one_nanosecond_panics (cm : ConnManager) (draw : Z) (w : World) :
  WithRefreshInterval 1 cm = (set_refreshInterval 1 cm, None) /\
  backoff 1 draw w = Panic "invalid argument to Int63n".
Proof. split; reflexivity. Qed.

(** Where the jitter bound is positive and the sum fits in [int64],
    [backoff] returns the base plus a number of [[0, base/2)], which lies in
    [[base, 1.5 * base)]. *)
Lemma backoff_in_range (base draw : Z) (w : World) :
  2 <= base ->
  base + base `quot` 2 <= MaxInt64 + 1 ->
  exists r,
    backoff base draw w = Done (base + r) w /\
    0 <= r < base `quot` 2 /\
    base <= base + r /\ 2 * (base + r) < 3 * base.
Proof.
  intros Hb Hfit. unfold backoff, Int63n. run_M.
  assert (Hq : base `quot` 2 = base / 2) by (apply Z.quot_div_nonneg; lia).
  assert (Hd : 0 < base / 2) by (apply Z.div_str_pos; lia).
  rewrite bool_decide_eq_false_2 by lia. run_M.
  pose proof (Z.mod_pos_bound draw (base `quot` 2) ltac:(lia)) as Hr.
  pose proof (Z.mul_div_le base 2 ltac:(lia)) as Hle.
  exists (draw `mod` (base `quot` 2)). split; [|lia].
  f_equal. unfold int64. unfold MaxInt64 in Hfit.
  rewrite Z.mod_small by lia. lia.
Qed.

(** Beyond that the sum wraps: the largest interval and the largest jitter
    give a negative duration. *)
Example backoff_wraps (w : World) :
  WithRefreshInterval MaxInt64 (mgr w) = (set_refreshInterval MaxInt64 (mgr w), None) /\
  backoff MaxInt64 (-1) w = Done (- 4611686018427387907) w.
Proof. split; reflexivity. Qed.

(** ** The pool invariant *)

Lemma bind_Done {A B} (m : M A) (f : A -> M B) (w w' : World) (a : A) :
  m w = Done a w' -> (m ≫= f) w = f a w'.
Proof. intros H. unfold mbind, M_bind. by rewrite H. Qed.

Lemma CloseAll_run
    (closeErr : gmultiset ClientConn -> ClientConn -> option error) (w : World) :
  pool_ok (mgr w) ->
  exists w',
    CloseAll closeErr w = Done tt w' /\ conns (mgr w') = ∅ /\
    closeCalls w' = closeCalls w ⊎ held (conns (mgr w)) /\
    queries w' = queries w /\ slept w' = slept w /\
    refreshInterval (mgr w') = refreshInterval (mgr w).
Proof.
  intros Hok.
  destruct (closeEach_run closeErr (map_to_list (conns (mgr w))) w
              (pool_ok_order _ _ Hok (reflexivity _)))
    as (w1 & Hrun & Hm & Hc & Hq & Hsl & _).
  exists (with_mgr (set_conns ∅) w1). split.
  - rewrite CloseAll_unfold. unfold CloseAll_in. by rewrite (bind_Done _ _ _ _ _ Hrun).
  - simpl. by rewrite Hm.
Qed.

(** Whatever the pool, an entry found under [service] after [replaceConn]
    was either there before or is the one just built around a non-nil
    connection. *)
Lemma replaceConn_installs_only_connections
    (closeErr : gmultiset ClientConn -> ClientConn -> option error)
    (w w' : World) (service : string) (c : option ClientConn) (tgt : string)
    (mc : managedConn) :
  replaceConn closeErr service c tgt w = Done tt w' ->
  conns (mgr w') !! service = Some mc ->
  conns (mgr w) !! service = Some mc \/
  (is_Some c /\ mc = mkManagedConn tgt c).
Proof.
  intros Hrun Hmc.
  assert (Hins : forall m : gmap string managedConn,
             <[service := mkManagedConn tgt c]> m !! service
             = Some (mkManagedConn tgt c)) by (intros; apply lookup_insert_eq).
  assert (Hdel : forall m : gmap string managedConn, delete service m !! service = None)
    by (intros; apply lookup_delete_eq).
  destruct (conns (mgr w) !! service) as [old|] eqn:Hs.
  - destruct (decide (target old = tgt)) as [Ht|Ht].
    + rewrite (replaceConn_same closeErr w service c tgt old Hs Ht) in Hrun.
      left. destruct c; injection Hrun as <-; simpl in Hmc; congruence.
    + destruct (conn old) as [hold|] eqn:Hc.
      * rewrite (replaceConn_swap closeErr w service c tgt old hold Hs Ht Hc) in Hrun.
        injection Hrun as <-. right. destruct c as [h|]; simpl in Hmc.
        -- rewrite Hins in Hmc. injection Hmc as <-. by split; [eexists|].
        -- by rewrite Hdel in Hmc.
      * by rewrite (replaceConn_nil_entry closeErr w service c tgt old Hs Ht Hc) in Hrun.
  - rewrite (replaceConn_fresh closeErr w service c tgt Hs) in Hrun.
    injection Hrun as <-. right. destruct c as [h|]; simpl in Hmc.
    + rewrite Hins in Hmc. injection Hmc as <-. by split; [eexists|].
    + by rewrite Hdel in Hmc.
Qed.

(** From a pool whose entries all hold a connection, every sequence of pool
    operations runs to the end and keeps that property. *)
Lemma run_calls_pool_ok
    (closeErr : gmultiset ClientConn -> ClientConn -> option error)
    (cs : list call) (w : World) :
  pool_ok (mgr w) ->
  exists w', run_calls closeErr cs w = Done tt w' /\ pool_ok (mgr w').
Proof.
  revert w. induction cs as [|c cs IH]; intros w Hok; [by exists w|].
  assert (exists w1, run_call closeErr c w = Done tt w1 /\ pool_ok (mgr w1))
    as (w1 & Hrun1 & Hok1).
  { destruct c as [service c tgt|service| |]; simpl.
    - destruct (replaceConn_returns closeErr w service c tgt Hok) as (w1 & Hrun & _).
      exists w1. split; [done|]. by apply (replaceConn_pool_ok closeErr w w1 service c tgt).
    - exists w. by rewrite (bind_Done _ _ _ _ _ (GetConn_run w service)).
    - destruct (CloseAll_run closeErr w Hok) as (w1 & Hrun & He & _).
      exists w1. split; [done|]. by apply pool_ok_empty.
    - destruct (CloseAll_run closeErr w Hok) as (w1 & Hrun & He & _).
      exists w1. split; [done|]. by apply pool_ok_empty. }
  destruct (IH w1 Hok1) as (w' & Hrun & Hok').
  exists w'. split; [|done]. simpl. by rewrite (bind_Done _ _ _ _ _ Hrun1).
Qed.

(** C9: a manager returned by [New] has an empty pool; from it, every
    sequence of [replaceConn], [GetConn], [CloseAll] and [Stop] calls runs to
    the end and leaves a pool whose entries all hold a non-nil connection,
    so [GetConn] never returns a nil connection with a nil error; and
    [replaceConn] installs an entry only around a non-nil connection. *)
Theorem pool_entries_hold_connections
    (closeErr : gmultiset ClientConn -> ClientConn -> option error)
    (c : option Client) (services : list string) (calls : list OptionCall)
    (cm : ConnManager) (w : World) (cs : list call) :
  New c services (option_of <$> calls) = (Some cm, None) ->
  mgr w = cm ->
  conns cm = ∅ /\
  (exists w',
     run_calls closeErr cs w = Done tt w' /\
     pool_ok (mgr w') /\
     forall service, exists r,
       GetConn service w' = Done r w' /\ (r.2 = None -> is_Some r.1)) /\
  (forall w1 w2 service c1 tgt mc,
     replaceConn closeErr service c1 tgt w1 = Done tt w2 ->
     conns (mgr w2) !! service = Some mc ->
     conns (mgr w1) !! service = Some mc \/
     (is_Some c1 /\ mc = mkManagedConn tgt c1)).
Proof.
  intros HNew Hw.
  destruct (New_result c services calls cm HNew) as (Hempty & _).
  split; [exact Hempty|]. split.
  - assert (Hok : pool_ok (mgr w)) by (rewrite Hw; by apply pool_ok_empty).
    destruct (run_calls_pool_ok closeErr cs w Hok) as (w' & Hrun & Hok').
    exists w'. split; [exact Hrun|]. split; [exact Hok'|].
    intros service. eexists. split; [apply GetConn_run|].
    destruct (conns (mgr w') !! service) as [mc|] eqn:Hs; simpl; [|discriminate].
    intros _. by apply (Hok' service mc).
  - intros w1 w2 service c1 tgt mc.
    apply replaceConn_installs_only_connections.
Qed.

Lemma pool_entries_hold_connections_witness :
  conns (manager_with ∅) = ∅ /\
  (exists w',
     run_calls mockClose
       [CallReplaceConn "users" (Some 1%positive) "10.0.0.1:9000";
        CallReplaceConn "users" None ""; CallGetConn "users"; CallStop]
       (world_with ∅) = Done tt w' /\
     pool_ok (mgr w') /\
     forall service, exists r,
       GetConn service w' = Done r w' /\ (r.2 = None -> is_Some r.1)) /\
  (forall w1 w2 service c1 tgt mc,
     replaceConn mockClose service c1 tgt w1 = Done tt w2 ->
     conns (mgr w2) !! service = Some mc ->
     conns (mgr w1) !! service = Some mc \/
     (is_Some c1 /\ mc = mkManagedConn tgt c1)).
Proof.
  apply (pool_entries_hold_connections mockClose (Some (ConsulClient 1)) ["users"] []
           (manager_with ∅) (world_with ∅)); reflexivity.
Defined.

(** ** The discovery loop *)

(** With a base of at least two nanoseconds [backoff] returns. *)
Lemma backoff_returns (base draw : Z) (w : World) :
  2 <= base ->
  backoff base draw w = Done (int64 (base + draw `mod` (base `quot` 2))) w.
Proof.
  intros Hb. unfold backoff, Int63n. run_M.
  assert (Hq : base `quot` 2 = base / 2) by (apply Z.quot_div_nonneg; lia).
  assert (Hd : 0 < base / 2) by (apply Z.div_str_pos; lia).
  by rewrite bool_decide_eq_false_2 by lia.
Qed.

Lemma index_in_range (entries : list ServiceEntry) (draw : Z) (w : World) :
  entries <> [] ->
  exists e,
    (Intn (Z.of_nat (length entries)) draw ≫= index entries) w = Done e w /\
    e ∈ entries.
Proof.
  intros Hne. unfold Intn.
  assert (0 < Z.of_nat (length entries)) by (destruct entries; [done|simpl; lia]).
  rewrite bool_decide_eq_false_2 by lia. run_M.
  pose proof (Z.mod_pos_bound draw (Z.of_nat (length entries)) ltac:(lia)) as Hr.
  unfold index.
  destruct (lookup_lt_is_Some_2 entries
              (Z.to_nat (draw `mod` Z.of_nat (length entries))) ltac:(lia)) as [e He].
  rewrite He, bool_decide_eq_true_2 by lia.
  exists e. split; [done|]. by eapply list_elem_of_lookup_2.
Qed.






(** * Further properties of the code *)

(** ** Accounting for connections *)

Lemma held_empty : held ∅ = ∅.
Proof. unfold held. by rewrite map_to_list_empty. Qed.

Lemma held_insert_fresh (m : gmap string managedConn) (k : string) (mc : managedConn) :
  m !! k = None -> held (<[k := mc]> m) = conn_set (conn mc) ⊎ held m.
Proof.
  intros Hk. unfold held. rewrite (map_to_list_insert m k mc Hk). simpl.
  destruct (conn mc); simpl; [done|]. by rewrite (left_id_L ∅ (⊎)).
Qed.

Lemma held_delete (m : gmap string managedConn) (k : string) (mc : managedConn) :
  m !! k = Some mc -> held m = conn_set (conn mc) ⊎ held (delete k m).
Proof.
  intros Hk. unfold held. rewrite <- (map_to_list_delete m k mc Hk). simpl.
  destruct (conn mc); simpl; [done|]. by rewrite (left_id_L ∅ (⊎)).
Qed.

Lemma held_insert (m : gmap string managedConn) (k : string) (mc : managedConn) :
  held (<[k := mc]> m) = conn_set (conn mc) ⊎ held (delete k m).
Proof.
  rewrite <- insert_delete_eq. apply held_insert_fresh, lookup_delete_eq.
Qed.

(** On a pool whose entries all hold a connection, [replaceConn] returns,
    and the connections closed so far together with the connections held by
    the pool grow by exactly the connection passed in. *)
Lemma replaceConn_accounting
    (closeErr : gmultiset ClientConn -> ClientConn -> option error)
    (w : World) (service : string) (c : option ClientConn) (tgt : string) :
  pool_ok (mgr w) ->
  exists w',
    replaceConn closeErr service c tgt w = Done tt w' /\
    closeCalls w' ⊎ held (conns (mgr w'))
      = closeCalls w ⊎ held (conns (mgr w)) ⊎ conn_set c.
Proof.
  intros Hok.
  destruct (conns (mgr w) !! service) as [old|] eqn:Hs.
  - destruct (decide (target old = tgt)) as [Ht|Ht].
    + rewrite (replaceConn_same closeErr w service c tgt old Hs Ht).
      destruct c as [h|]; eexists; (split; [reflexivity|]); simpl; multiset_solver.
    + destruct (Hok _ _ Hs) as [hold Hc].
      rewrite (replaceConn_swap closeErr w service c tgt old hold Hs Ht Hc).
      eexists; split; [reflexivity|]. simpl.
      rewrite (held_delete _ _ _ Hs), Hc. simpl.
      destruct c as [h|]; simpl.
      * rewrite held_insert. simpl. multiset_solver.
      * multiset_solver.
  - rewrite (replaceConn_fresh closeErr w service c tgt Hs).
    eexists; split; [reflexivity|]. simpl.
    destruct c as [h|]; simpl.
    + rewrite (held_insert_fresh _ _ _ Hs). simpl. multiset_solver.
    + rewrite (delete_id _ _ Hs). multiset_solver.
Qed.

Lemma held_elem_inv (m : gmap string managedConn) (h : ClientConn) :
  h ∈ held m -> exists service mc, m !! service = Some mc /\ conn mc = Some h.
Proof.
  unfold held. intros Hin. apply elem_of_list_to_set_disj in Hin.
  apply list_elem_of_omap in Hin as ([service mc] & Hin & Hc).
  apply elem_of_map_to_list in Hin. by exists service, mc.
Qed.

(** X1: from a pool whose entries all hold a connection, every sequence of
    [replaceConn], [GetConn], [CloseAll] and [Stop] calls runs to the end,
    and at the end the connections closed together with the connections
    still held are exactly those closed or held at the start plus those
    submitted in between: a connection leaves the pool only by being closed,
    once per entry that held it. *)
Theorem run_calls_accounts_for_connections
    (closeErr : gmultiset ClientConn -> ClientConn -> option error)
    (cs : list call) (w : World) :
  pool_ok (mgr w) ->
  exists w',
    run_calls closeErr cs w = Done tt w' /\
    pool_ok (mgr w') /\
    closeCalls w' ⊎ held (conns (mgr w'))
      = closeCalls w ⊎ held (conns (mgr w)) ⊎ submitted cs.
Proof.
  revert w. induction cs as [|c cs IH]; intros w Hok.
  { exists w. repeat split; [done|]. simpl. multiset_solver. }
  assert (exists w1, run_call closeErr c w = Done tt w1 /\ pool_ok (mgr w1) /\
            closeCalls w1 ⊎ held (conns (mgr w1)) ⊎ submitted cs
            = closeCalls w ⊎ held (conns (mgr w)) ⊎ submitted (c :: cs))
    as (w1 & Hrun1 & Hok1 & Hacc1).
  { destruct c as [service c tgt|service| |]; simpl.
    - destruct (replaceConn_accounting closeErr w service c tgt Hok) as (w1 & Hrun & Hacc).
      exists w1. split; [done|].
      split; [by apply (replaceConn_pool_ok closeErr w w1 service c tgt)|].
      rewrite Hacc. multiset_solver.
    - exists w. by rewrite (bind_Done _ _ _ _ _ (GetConn_run w service)).
    - destruct (CloseAll_run closeErr w Hok) as (w1 & Hrun & He & Hc & _).
      exists w1. split; [done|]. split; [by apply pool_ok_empty|].
      by rewrite He, held_empty, Hc, (right_id_L ∅ (⊎)).
    - destruct (CloseAll_run closeErr w Hok) as (w1 & Hrun & He & Hc & _).
      exists w1. split; [done|]. split; [by apply pool_ok_empty|].
      by rewrite He, held_empty, Hc, (right_id_L ∅ (⊎)). }
  destruct (IH w1 Hok1) as (w' & Hrun & Hok' & Hacc).
  exists w'. split; [|split; [done|]].
  - simpl. by rewrite (bind_Done _ _ _ _ _ Hrun1).
  - by rewrite Hacc, Hacc1.
Qed.

Lemma run_calls_accounts_for_connections_witness :
  exists w',
    run_calls mockClose
      [CallReplaceConn "svc" (Some 2%positive) "target2"; CallGetConn "svc";
       CallReplaceConn "svc" (Some 3%positive) "target2"; CallCloseAll]
      (world_with pool_svc) = Done tt w' /\
    pool_ok (mgr w') /\
    closeCalls w' ⊎ held (conns (mgr w'))
      = closeCalls (world_with pool_svc) ⊎ held (conns (mgr (world_with pool_svc)))
        ⊎ submitted
            [CallReplaceConn "svc" (Some 2%positive) "target2"; CallGetConn "svc";
             CallReplaceConn "svc" (Some 3%positive) "target2"; CallCloseAll].
Proof.
  apply (run_calls_accounts_for_connections mockClose _ (world_with pool_svc)).
  apply pool_ok_singleton.
Defined.

(** X2: start from an empty pool with nothing closed and submit each
    connection at most once.  Then every sequence of pool calls runs to the
    end, a connection returned by [GetConn] has never been closed, and a
    submitted connection that is no longer in the pool has been closed
    exactly once. *)
Theorem GetConn_never_returns_closed
    (closeErr : gmultiset ClientConn -> ClientConn -> option error)
    (cs : list call) (w : World) :
  conns (mgr w) = ∅ ->
  closeCalls w = ∅ ->
  (forall h, (multiplicity h (submitted cs) <= 1)%nat) ->
  exists w',
    run_calls closeErr cs w = Done tt w' /\
    (forall service h e,
       GetConn service w' = Done (Some h, e) w' -> closeCount h w' = 0%nat) /\
    (forall h,
       h ∈ submitted cs -> h ∉ held (conns (mgr w')) -> closeCount h w' = 1%nat) /\
    (forall h, h ∉ submitted cs -> closeCount h w' = 0%nat).
Proof.
  intros He Hc Hdistinct.
  destruct (run_calls_accounts_for_connections closeErr cs w (pool_ok_empty _ He))
    as (w' & Hrun & Hok' & Hacc).
  rewrite He, Hc, held_empty, !(left_id_L ∅ (⊎)) in Hacc.
  assert (Hm : forall h,
             (closeCount h w' + multiplicity h (held (conns (mgr w'))))%nat
             = multiplicity h (submitted cs)).
  { intros h. unfold closeCount. by rewrite <- Hacc, multiplicity_disj_union. }
  exists w'. split; [exact Hrun|]. split; [|split].
  - intros service h e Hget. rewrite GetConn_run in Hget.
    destruct (conns (mgr w') !! service) as [mc|] eqn:Hs; [|discriminate].
    injection Hget as Hh _.
    pose proof (held_elem _ _ _ _ Hs Hh) as Hin.
    pose proof (proj1 (elem_of_multiplicity h _) Hin).
    specialize (Hm h). specialize (Hdistinct h). lia.
  - intros h Hsub Hnot.
    pose proof (proj1 (elem_of_multiplicity h _) Hsub).
    pose proof (proj1 (not_elem_of_multiplicity h _) Hnot).
    specialize (Hm h). specialize (Hdistinct h). lia.
  - intros h Hnot.
    pose proof (proj1 (not_elem_of_multiplicity h _) Hnot).
    specialize (Hm h). lia.
Qed.

Lemma GetConn_never_returns_closed_witness :
  exists w',
    run_calls mockClose
      [CallReplaceConn "users" (Some 1%positive) "10.0.0.1:9000";
       CallReplaceConn "users" (Some 2%positive) "10.0.0.2:9000"]
      (world_with ∅) = Done tt w' /\
    (forall service h e,
       GetConn service w' = Done (Some h, e) w' -> closeCount h w' = 0%nat) /\
    (forall h,
       h ∈ submitted
             [CallReplaceConn "users" (Some 1%positive) "10.0.0.1:9000";
              CallReplaceConn "users" (Some 2%positive) "10.0.0.2:9000"] ->
       h ∉ held (conns (mgr w')) -> closeCount h w' = 1%nat) /\
    (forall h,
       h ∉ submitted
             [CallReplaceConn "users" (Some 1%positive) "10.0.0.1:9000";
              CallReplaceConn "users" (Some 2%positive) "10.0.0.2:9000"] ->
       closeCount h w' = 0%nat).
Proof.
  apply (GetConn_never_returns_closed mockClose _ (world_with ∅));
    [reflexivity|reflexivity|].
  intros h. simpl.
  rewrite !multiplicity_disj_union, !multiplicity_singleton, multiplicity_empty.
  repeat case_decide; simplify_eq; lia.
Defined.

(** X3: the accounting needs each connection to be submitted once.  When a
    service without an entry is given the same non-nil connection and target
    twice, the second call takes the same-target branch and closes the
    connection that the first call installed: [GetConn] then returns a
    connection that has been closed. *)
Theorem replaceConn_twice_closes_installed
    (closeErr : gmultiset ClientConn -> ClientConn -> option error)
    (w : World) (service : string) (h : ClientConn) (tgt : string) :
  conns (mgr w) !! service = None ->
  exists w',
    run_calls closeErr
      [CallReplaceConn service (Some h) tgt; CallReplaceConn service (Some h) tgt] w
      = Done tt w' /\
    GetConn service w' = Done (Some h, None) w' /\
    closeCount h w' = S (closeCount h w).
Proof.
  intros Hs. simpl.
  rewrite (bind_Done _ _ _ _ _ (replaceConn_fresh closeErr w service (Some h) tgt Hs)).
  assert (Hl : forall m : gmap string managedConn,
             <[service := mkManagedConn tgt (Some h)]> m !! service
             = Some (mkManagedConn tgt (Some h))) by (intros; apply lookup_insert_eq).
  match goal with |- context [_ ?w1 = Done _ _] =>
    rewrite (bind_Done _ _ w1 _ _
               (replaceConn_same closeErr w1 service (Some h) tgt
                  (mkManagedConn tgt (Some h)) (Hl _) eq_refl))
  end.
  eexists. split; [reflexivity|]. split.
  - rewrite GetConn_run. simpl. by rewrite Hl.
  - by rewrite closeCount_with_close.
Qed.

Lemma replaceConn_twice_closes_installed_witness :
  exists w',
    run_calls mockClose
      [CallReplaceConn "users" (Some 1%positive) "10.0.0.1:9000";
       CallReplaceConn "users" (Some 1%positive) "10.0.0.1:9000"] (world_with ∅)
      = Done tt w' /\
    GetConn "users" w' = Done (Some 1%positive, None) w' /\
    closeCount 1%positive w' = S (closeCount 1%positive (world_with ∅)).
Proof.
  apply (replaceConn_twice_closes_installed mockClose (world_with ∅) "users"
           1%positive "10.0.0.1:9000").
  reflexivity.
Defined.

(** ** The backoff, completed *)

(** X4: [backoff] panics exactly for bases below two nanoseconds, whatever
    the draw: the jitter bound [base / 2] is then not positive. *)
Theorem backoff_panics_iff (base draw : Z) (w : World) :
  backoff base draw w = Panic "invalid argument to Int63n" <-> base < 2.
Proof.
  split.
  - intros Hp. destruct (decide (base < 2)) as [|Hge]; [done|].
    rewrite backoff_returns in Hp by lia. discriminate.
  - intros Hlt. unfold backoff, Int63n. run_M.
    assert (base `quot` 2 <= 0).
    { destruct (decide (0 <= base)).
      - rewrite Z.quot_div_nonneg by lia.
        assert (base / 2 < 1) by (apply Z.div_lt_upper_bound; lia). lia.
      - pose proof (Z.quot_opp_l base 2 ltac:(lia)) as Ho.
        pose proof (Z.quot_pos (- base) 2 ltac:(lia) ltac:(lia)). lia. }
    by rewrite bool_decide_eq_true_2.
Qed.

(** X5: for a base of at least two nanoseconds that fits in [int64],
    [backoff] returns; when base plus jitter fits in [int64] the delay is
    that sum and lies in [[base, 1.5 * base)], and when it does not fit the
    delay is the sum less [2 ^ 64], a negative duration. *)
Theorem backoff_delay (base draw : Z) (w : World) :
  2 <= base ->
  base <= MaxInt64 ->
  exists r d,
    backoff base draw w = Done d w /\
    0 <= r < base `quot` 2 /\
    (base + r <= MaxInt64 -> d = base + r /\ base <= d /\ 2 * d < 3 * base) /\
    (MaxInt64 < base + r -> d = base + r - 2 ^ 64 /\ d < 0).
Proof.
  intros Hb Hmax. rewrite backoff_returns by done.
  assert (Hq : base `quot` 2 = base / 2) by (apply Z.quot_div_nonneg; lia).
  assert (Hd : 0 < base / 2) by (apply Z.div_str_pos; lia).
  pose proof (Z.mod_pos_bound draw (base `quot` 2) ltac:(lia)) as Hr.
  pose proof (Z.mul_div_le base 2 ltac:(lia)) as Hle.
  exists (draw `mod` (base `quot` 2)), (int64 (base + draw `mod` (base `quot` 2))).
  split; [done|]. split; [done|].
  unfold int64, MaxInt64 in *. split.
  - intros Hfit. rewrite Z.mod_small by lia. lia.
  - intros Hover.
    set (x := base + draw `mod` (base `quot` 2)) in *.
    assert (Hm : (x + 2 ^ 63) `mod` 2 ^ 64 = x + 2 ^ 63 - 2 ^ 64).
    { symmetry. apply (Z.mod_unique_pos _ _ 1); lia. }
    rewrite Hm. lia.
Qed.

Lemma backoff_delay_witness :
  exists r d,
    backoff (30 * Second) 12345 (world_with ∅) = Done d (world_with ∅) /\
    0 <= r < (30 * Second) `quot` 2 /\
    (30 * Second + r <= MaxInt64 ->
       d = 30 * Second + r /\ 30 * Second <= d /\ 2 * d < 3 * (30 * Second)) /\
    (MaxInt64 < 30 * Second + r -> d = 30 * Second + r - 2 ^ 64 /\ d < 0).
Proof.
  apply (backoff_delay (30 * Second) 12345 (world_with ∅)); by vm_compute.
Defined.

(** ** Construction, completed *)

Lemma applyOptions_result (calls : list OptionCall) (cm0 cm : ConnManager) :
  applyOptions (option_of <$> calls) cm0 = (Some cm, None) ->
  refreshInterval cm = default (refreshInterval cm0) (last (intervals calls)) /\
  logger cm = default (logger cm0) (last (loggers calls)) /\
  dialOpts cm = dialOpts cm0 ++ dial_options calls /\
  (0 < refreshInterval cm0 -> 0 < refreshInterval cm).
Proof.
  revert cm0. induction calls as [|call calls IH]; intros cm0; simpl.
  - intros [= <-]. by rewrite app_nil_r.
  - destruct call as [[l|]|d|opts]; simpl; unfold WithRefreshInterval.
    + intros Hrun. destruct (IH _ Hrun) as (Hi & Hl & Hd & Hpos).
      simpl in *. split; [done|]. split; [|by split].
      unfold loggers in *. simpl. rewrite last_cons, Hl.
      match goal with |- context [match ?x with _ => _ end] => by destruct x end.
    + discriminate.
    + case_bool_decide; [discriminate|].
      intros Hrun. destruct (IH _ Hrun) as (Hi & Hl & Hd & Hpos).
      simpl in *. split; [|split; [done|split; [done|]]].
      * unfold intervals in *. simpl. rewrite last_cons, Hi.
        match goal with |- context [match ?x with _ => _ end] => by destruct x end.
      * intros _. apply Hpos. lia.
    + intros Hrun. destruct (IH _ Hrun) as (Hi & Hl & Hd & Hpos).
      simpl in *. split; [done|]. split; [done|]. split; [|done].
      by rewrite Hd, <- app_assoc.
Qed.

(** X6: the manager [New] returns carries the interval of the last
    [WithRefreshInterval] (30 seconds without one), which is positive, the
    logger of the last [WithLogger] (the no-op logger without one), the
    insecure transport option followed by the dial options of all
    [WithDialOptions] in call order, the service list it was given, and an
    empty pool. *)
Theorem New_applies_options
    (c : option Client) (services : list string) (calls : list OptionCall)
    (cm : ConnManager) :
  New c services (option_of <$> calls) = (Some cm, None) ->
  refreshInterval cm = default (30 * Second) (last (intervals calls)) /\
  0 < refreshInterval cm /\
  logger cm = default NopLogger (last (loggers calls)) /\
  dialOpts cm = InsecureTransport :: dial_options calls /\
  watchList cm = services /\
  conns cm = ∅.
Proof.
  intros HNew.
  destruct (New_result c services calls cm HNew) as (He & _ & Hwl).
  unfold New in HNew. destruct c as [c'|]; [|discriminate].
  case_bool_decide; [discriminate|].
  apply applyOptions_result in HNew as (Hi & Hl & Hd & Hpos). simpl in *.
  repeat split; try done. by apply Hpos.
Qed.

Lemma New_applies_options_witness :
  refreshInterval (set_dialOpts [InsecureTransport; DialOpt 7]
                     (set_refreshInterval (5 * Second) (manager_with ∅)))
    = default (30 * Second)
        (last (intervals [CallWithRefreshInterval Second;
                          CallWithDialOptions [DialOpt 7];
                          CallWithRefreshInterval (5 * Second)])) /\
  0 < refreshInterval (set_dialOpts [InsecureTransport; DialOpt 7]
                         (set_refreshInterval (5 * Second) (manager_with ∅))) /\
  logger (set_dialOpts [InsecureTransport; DialOpt 7]
            (set_refreshInterval (5 * Second) (manager_with ∅)))
    = default NopLogger
        (last (loggers [CallWithRefreshInterval Second;
                        CallWithDialOptions [DialOpt 7];
                        CallWithRefreshInterval (5 * Second)])) /\
  dialOpts (set_dialOpts [InsecureTransport; DialOpt 7]
              (set_refreshInterval (5 * Second) (manager_with ∅)))
    = InsecureTransport
        :: dial_options [CallWithRefreshInterval Second;
                         CallWithDialOptions [DialOpt 7];
                         CallWithRefreshInterval (5 * Second)] /\
  watchList (set_dialOpts [InsecureTransport; DialOpt 7]
               (set_refreshInterval (5 * Second) (manager_with ∅))) = ["users"] /\
  conns (set_dialOpts [InsecureTransport; DialOpt 7]
           (set_refreshInterval (5 * Second) (manager_with ∅))) = ∅.
Proof.
  apply (New_applies_options (Some (ConsulClient 1)) ["users"]
           [CallWithRefreshInterval Second; CallWithDialOptions [DialOpt 7];
            CallWithRefreshInterval (5 * Second)]).
  reflexivity.
Defined.

(** X7: the error [New] returns is that of the first failing check, in the
    order nil client, empty service list, options from left to right; it is
    nil exactly when no check fails. *)
Theorem New_returns_first_error
    (c : option Client) (services : list string) (calls : list OptionCall) :
  (New c services (option_of <$> calls)).2 = first_error c services calls.
Proof.
  unfold New, first_error. destruct c as [c'|]; [|done].
  destruct services as [|s services]; [done|]. simpl.
  match goal with |- context [applyOptions _ ?cm0] => generalize cm0 end.
  induction calls as [|call calls IH]; intros cm0; simpl; [done|].
  destruct call as [[l|]|d|opts]; simpl; unfold WithRefreshInterval;
    try apply IH; try done.
  case_bool_decide; simpl; [done|apply IH].
Qed.

(** ** The discovery loop, completed *)


(** The four ways through an iteration whose query succeeded. *)
Lemma watchService_iter_submission
    (closeErr : gmultiset ClientConn -> ClientConn -> option error)
    (service : string) (env : Responses) (waitIdx : Z) (w : World)
    (entries : list ServiceEntry) (meta : QueryMeta) :
  pool_ok (mgr w) ->
  ctxDone env = false ->
  healthService env service (query_of (mgr w) waitIdx) = inl (entries, meta) ->
  exists w',
    watchService_iter closeErr service env waitIdx w
      = Done (Some (LastIndex meta)) w' /\
    submission closeErr service env entries
      (with_query service (query_of (mgr w) waitIdx) w) w'.
Proof.
  intros Hok Hctx Hq. unfold watchService_iter. rewrite Hctx. run_M.
  unfold sendQuery. unfold query_of in *. rewrite Hq.
  set (q := mkQueryOptions (refreshInterval (mgr w)) waitIdx false).
  case_bool_decide as Hlen.
  - unfold Warn.
    destruct (replaceConn_returns closeErr (with_warn (with_query service q w))
                service None "" Hok) as (w' & Hrun & _).
    exists w'. split; [by rewrite Hrun|].
    apply NoInstances; [by destruct entries|done].
  - assert (Hne : entries <> []) by (by destruct entries).
    destruct (index_in_range entries (pick env) (with_query service q w) Hne)
      as (e & He & Hin).
    unfold mbind, M_bind in He.
    destruct (Intn (Z.of_nat (length entries)) (pick env) (with_query service q w))
      as [i wi|] eqn:Hi; [|done].
    rewrite He.
    change (if bool_decide (AgentService.Address (Service e) = "")
            then Node.Address (Node e) else AgentService.Address (Service e))
      with (instance_addr e).
    destruct (lookupHost env (instance_addr e)) as [lerr|] eqn:Hl.
    { eexists. split; [reflexivity|]. by eapply Unresolvable. }
    change (addrTemplate (instance_addr e) (AgentService.Port (Service e)))
      with (instance_target e).
    destruct (newClient env (instance_target e) (dialOpts (mgr w))) as [c|derr] eqn:Hd.
    2:{ eexists. split; [reflexivity|]. by eapply DialFailed. }
    destruct (replaceConn_returns closeErr (with_query service q w)
                service (Some c) (instance_target e) Hok) as (w' & Hrun & _).
    exists w'. split; [by rewrite Hrun|]. by eapply Submitted.
Qed.









(** After [replaceConn] with a non-nil connection the service has an entry
    under the requested target: the new connection, or the entry that was
    already filed under that target, in which case the new connection has
    been closed. *)
Lemma replaceConn_some_entry
    (closeErr : gmultiset ClientConn -> ClientConn -> option error)
    (w w' : World) (service : string) (h : ClientConn) (tgt : string) :
  pool_ok (mgr w) ->
  replaceConn closeErr service (Some h) tgt w = Done tt w' ->
  exists mc,
    conns (mgr w') !! service = Some mc /\
    target mc = tgt /\
    (mc = mkManagedConn tgt (Some h) \/
     (conns (mgr w) !! service = Some mc /\
      closeCount h w' = S (closeCount h w))).
Proof.
  intros Hok Hrun.
  assert (Hl : forall m : gmap string managedConn,
             <[service := mkManagedConn tgt (Some h)]> m !! service
             = Some (mkManagedConn tgt (Some h))) by (intros; apply lookup_insert_eq).
  destruct (conns (mgr w) !! service) as [old|] eqn:Hs.
  - destruct (decide (target old = tgt)) as [Ht|Ht].
    + rewrite (replaceConn_same closeErr w service (Some h) tgt old Hs Ht) in Hrun.
      injection Hrun as <-. exists old. split; [done|]. split; [done|].
      right. split; [done|]. apply closeCount_with_close.
    + destruct (Hok _ _ Hs) as [hold Hc].
      rewrite (replaceConn_swap closeErr w service (Some h) tgt old hold Hs Ht Hc) in Hrun.
      injection Hrun as <-. eexists. split; [apply Hl|]. split; [done|by left].
  - rewrite (replaceConn_fresh closeErr w service (Some h) tgt Hs) in Hrun.
    injection Hrun as <-. eexists. split; [apply Hl|]. split; [done|by left].
Qed.



(** X11: when the query succeeds with instances and every one of them
    resolves and dials, the iteration leaves the service with an entry whose
    target is [address:port] of one of the instances returned, with the
    node's address standing in for an empty service address.  The entry
    holds the connection just dialled, unless an entry under that target was
    already there: then that entry stays and the new connection is closed.
    The loop does not sleep. *)
Theorem watchService_iter_connects
    (closeErr : gmultiset ClientConn -> ClientConn -> option error)
    (service : string) (env : Responses) (waitIdx : Z) (w : World)
    (entries : list ServiceEntry) (meta : QueryMeta) :
  pool_ok (mgr w) ->
  ctxDone env = false ->
  healthService env service
    (mkQueryOptions (refreshInterval (mgr w)) waitIdx false) = inl (entries, meta) ->
  entries <> [] ->
  (forall e, e ∈ entries ->
     lookupHost env (instance_addr e) = None /\
     exists c, newClient env (instance_target e) (dialOpts (mgr w)) = inl c) ->
  exists w' e c mc,
    watchService_iter closeErr service env waitIdx w
      = Done (Some (LastIndex meta)) w' /\
    e ∈ entries /\
    newClient env (instance_target e) (dialOpts (mgr w)) = inl c /\
    conns (mgr w') !! service = Some mc /\
    target mc = instance_target e /\
    (mc = mkManagedConn (instance_target e) (Some c) \/
     (conns (mgr w) !! service = Some mc /\ closeCount c w' = S (closeCount c w))) /\
    slept w' = slept w.
Proof.
  intros Hok Hctx Hq Hne Hall.
  destruct (watchService_iter_submission closeErr service env waitIdx w entries meta
              Hok Hctx Hq) as (w' & Hrun & Hsub).
  destruct Hsub as [He _|e err Hin Hl _|e err Hin Hl Hd _|e c Hin Hl Hd Hrep].
  - done.
  - destruct (Hall e Hin) as [Hl' _]. congruence.
  - destruct (Hall e Hin) as [_ [c Hc]]. simpl in *. congruence.
  - destruct (replaceConn_some_entry closeErr
                (with_query service (query_of (mgr w) waitIdx) w) w' service c
                (instance_target e) Hok Hrep) as (mc & Hmc & Ht & Hcases).
    destruct (replaceConn_returns closeErr
                (with_query service (query_of (mgr w) waitIdx) w) service (Some c)
                (instance_target e) Hok) as (w2 & Hrun2 & _ & _ & _ & _ & Hsl & _).
    rewrite Hrep in Hrun2. injection Hrun2 as <-.
    exists w', e, c, mc. by repeat split.
Qed.

Lemma watchService_iter_connects_witness :
  exists w' e c mc,
    watchService_iter mockClose "users" env_up 0 (world_with pool_users)
      = Done (Some 42) w' /\
    e ∈ [entry_on_node] /\
    newClient env_up (instance_target e) (dialOpts (mgr (world_with pool_users)))
      = inl c /\
    conns (mgr w') !! "users" = Some mc /\
    target mc = instance_target e /\
    (mc = mkManagedConn (instance_target e) (Some c) \/
     (conns (mgr (world_with pool_users)) !! "users" = Some mc /\
      closeCount c w' = S (closeCount c (world_with pool_users)))) /\
    slept w' = slept (world_with pool_users).
Proof.
  apply (watchService_iter_connects mockClose "users" env_up 0
           (world_with pool_users) [entry_on_node] (mkQueryMeta 42)).
  - apply pool_ok_singleton.
  - reflexivity.
  - reflexivity.
  - discriminate.
  - intros e _. split; [reflexivity|]. by eexists.
Defined.

(** The target derived for the instance without a service address. *)
Example instance_target_falls_back_to_node :
  instance_target entry_on_node = "10.0.0.9:9000" /\
  instance_target (mkServiceEntry (Node.mk "10.0.0.9") (AgentService.mk "svc.local" 443))
    = "svc.local:443".
Proof. split; reflexivity. Qed.

(** X12: in a pool without entries under the empty target, which is all the
    loop ever builds, a successful query that returns no instance removes
    the service's entry and closes its connection exactly once; [GetConn]
    then reports [ErrConnNotFound].  The loop does not sleep. *)
Theorem watchService_iter_no_instances_removes
    (closeErr : gmultiset ClientConn -> ClientConn -> option error)
    (service : string) (env : Responses) (waitIdx : Z) (w : World)
    (meta : QueryMeta) :
  pool_ok (mgr w) ->
  targets_nonempty (mgr w) ->
  ctxDone env = false ->
  healthService env service
    (mkQueryOptions (refreshInterval (mgr w)) waitIdx false) = inl ([], meta) ->
  exists w',
    watchService_iter closeErr service env waitIdx w
      = Done (Some (LastIndex meta)) w' /\
    conns (mgr w') !! service = None /\
    closeCalls w' = closeCalls w ⊎ conn_set (conns (mgr w) !! service ≫= conn) /\
    (exists err,
       GetConn service w' = Done (None, Some err) w' /\
       errors_Is err ErrConnNotFound = true) /\
    slept w' = slept w.
Proof.
  intros Hok Hne Hctx Hq.
  destruct (watchService_iter_submission closeErr service env waitIdx w [] meta
              Hok Hctx Hq) as (w' & Hrun & Hsub).
  exists w'. split; [exact Hrun|].
  assert (Hd : forall m : gmap string managedConn, delete service m !! service = None)
    by (intros; apply lookup_delete_eq).
  destruct Hsub as [_ Hrep|e err Hin _ _|e err Hin _ _ _|e c Hin _ _ _];
    try by apply not_elem_of_nil in Hin.
  set (w0 := with_warn (with_query service (query_of (mgr w) waitIdx) w)) in *.
  destruct (conns (mgr w) !! service) as [old|] eqn:Hs.
  - destruct (Hok _ _ Hs) as [hold Hc].
    rewrite (replaceConn_swap closeErr w0 service None "" old hold Hs
               (Hne _ _ Hs) Hc) in Hrep.
    injection Hrep as <-. simpl. rewrite Hc. simpl.
    split; [apply Hd|]. split; [done|]. split; [|done].
    eexists. rewrite GetConn_run. simpl. rewrite Hd.
    split; [reflexivity|apply errors_Is_wrapped].
  - rewrite (replaceConn_fresh closeErr w0 service None "" Hs) in Hrep.
    injection Hrep as <-. simpl.
    split; [apply Hd|]. split; [by rewrite (right_id_L ∅ (⊎))|]. split; [|done].
    eexists. rewrite GetConn_run. simpl. rewrite Hd.
    split; [reflexivity|apply errors_Is_wrapped].
Qed.

Lemma targets_nonempty_singleton (service tgt : string) (c : option ClientConn) :
  tgt <> "" -> targets_nonempty (manager_with {[ service := mkManagedConn tgt c ]}).
Proof.
  intros Ht k mc Hk. simpl in Hk.
  apply lookup_singleton_Some in Hk as [_ <-]. done.
Qed.

Lemma watchService_iter_no_instances_removes_witness :
  exists w',
    watchService_iter mockClose "users" env_no_instances 42 (world_with pool_users)
      = Done (Some 43) w' /\
    conns (mgr w') !! "users" = None /\
    closeCalls w' = closeCalls (world_with pool_users)
                      ⊎ conn_set (conns (mgr (world_with pool_users)) !! "users" ≫= conn) /\
    (exists err,
       GetConn "users" w' = Done (None, Some err) w' /\
       errors_Is err ErrConnNotFound = true) /\
    slept w' = slept (world_with pool_users).
Proof.
  apply (watchService_iter_no_instances_removes mockClose "users" env_no_instances 42
           (world_with pool_users) (mkQueryMeta 43)).
  - apply pool_ok_singleton.
  - by apply targets_nonempty_singleton.
  - reflexivity.
  - reflexivity.
Defined.

(** ** The pool, completed *)

(** X13: [CloseAll] returns exactly on the pools whose entries all hold a
    connection; a single entry with a nil connection makes it panic with a
    nil dereference, and the pool is then not drained. *)
Theorem CloseAll_returns_iff
    (closeErr : gmultiset ClientConn -> ClientConn -> option error) (w : World) :
  ((exists w', CloseAll closeErr w = Done tt w') <-> pool_ok (mgr w)) /\
  (forall service mc,
     conns (mgr w) !! service = Some mc -> conn mc = None ->
     CloseAll closeErr w = Panic nil_dereference).
Proof.
  assert (Hpanic : forall service mc,
             conns (mgr w) !! service = Some mc -> conn mc = None ->
             CloseAll closeErr w = Panic nil_dereference).
  { intros service mc Hs Hc. rewrite CloseAll_unfold. unfold CloseAll_in.
    unfold mbind, M_bind. rewrite closeEach_nil_panics; [done|].
    apply Exists_exists. exists (service, mc). split; [|done].
    by apply elem_of_map_to_list. }
  split; [split|exact Hpanic].
  - intros [w' Hrun] service mc Hs.
    destruct (conn mc) as [h|] eqn:Hc; [by eexists|].
    rewrite (Hpanic service mc Hs Hc) in Hrun. discriminate.
  - intros Hok. destruct (CloseAll_run closeErr w Hok) as (w' & Hrun & _).
    by exists w'.
Qed.

(** X14: [replaceConn] panics exactly when the service's entry holds a nil
    connection and is filed under another target than the one passed; in
    every other case it returns. *)
Theorem replaceConn_panics_iff
    (closeErr : gmultiset ClientConn -> ClientConn -> option error)
    (w : World) (service : string) (c : option ClientConn) (tgt : string) :
  (replaceConn closeErr service c tgt w = Panic nil_dereference <->
   exists old,
     conns (mgr w) !! service = Some old /\ target old <> tgt /\ conn old = None) /\
  ((exists w', replaceConn closeErr service c tgt w = Done tt w') \/
   replaceConn closeErr service c tgt w = Panic nil_dereference).
Proof.
  destruct (conns (mgr w) !! service) as [old|] eqn:Hs.
  - destruct (decide (target old = tgt)) as [Ht|Ht].
    + rewrite (replaceConn_same closeErr w service c tgt old Hs Ht).
      split; [|left; destruct c; by eexists].
      split; [by destruct c|]. intros (old' & [= <-] & Hne & _). done.
    + destruct (conn old) as [hold|] eqn:Hc.
      * rewrite (replaceConn_swap closeErr w service c tgt old hold Hs Ht Hc).
        split; [|left; by eexists].
        split; [done|]. intros (old' & [= <-] & _ & Hnil). congruence.
      * rewrite (replaceConn_nil_entry closeErr w service c tgt old Hs Ht Hc).
        split; [|by right]. split; [|done]. intros _. by exists old.
  - rewrite (replaceConn_fresh closeErr w service c tgt Hs).
    split; [|left; by eexists].
    split; [done|]. by intros (old' & [=] & _).
Qed.

(** X15: after [Stop] on a pool whose entries all hold a connection, every
    service is reported as not found, and the configuration of the manager
    is as before. *)
Theorem Stop_then_GetConn_not_found
    (closeErr : gmultiset ClientConn -> ClientConn -> option error) (w : World) :
  pool_ok (mgr w) ->
  exists w',
    Stop closeErr w = Done tt w' /\
    (forall service, exists err,
       GetConn service w' = Done (None, Some err) w' /\
       errors_Is err ErrConnNotFound = true) /\
    refreshInterval (mgr w') = refreshInterval (mgr w) /\
    queries w' = queries w /\ slept w' = slept w.
Proof.
  intros Hok.
  destruct (CloseAll_run closeErr w Hok) as (w' & Hrun & He & _ & Hq & Hsl & Hri).
  exists w'. split; [exact Hrun|]. split; [|done].
  intros service. eexists. rewrite GetConn_run, He, lookup_empty.
  split; [reflexivity|apply errors_Is_wrapped].
Qed.

Lemma Stop_then_GetConn_not_found_witness :
  exists w',
    Stop mockClose (world_with pool_users) = Done tt w' /\
    (forall service, exists err,
       GetConn service w' = Done (None, Some err) w' /\
       errors_Is err ErrConnNotFound = true) /\
    refreshInterval (mgr w') = refreshInterval (mgr (world_with pool_users)) /\
    queries w' = queries (world_with pool_users) /\
    slept w' = slept (world_with pool_users).
Proof.
  apply (Stop_then_GetConn_not_found mockClose (world_with pool_users)).
  apply pool_ok_singleton.
Defined.

(** X16: reporting that a service has no connection is idempotent: after
    [replaceConn] with a nil connection has returned, the same call again
    returns without changing anything. *)
Theorem replaceConn_nil_idempotent
    (closeErr : gmultiset ClientConn -> ClientConn -> option error)
    (w : World) (service : string) (tgt : string) :
  pool_ok (mgr w) ->
  exists w',
    replaceConn closeErr service None tgt w = Done tt w' /\
    replaceConn closeErr service None tgt w' = Done tt w'.
Proof.
  intros Hok.
  assert (Hd : forall m : gmap string managedConn, delete service m !! service = None)
    by (intros; apply lookup_delete_eq).
  assert (Hidem : forall w0,
            with_mgr (fun cm => set_conns (delete service (conns cm)) cm)
              (with_mgr (fun cm => set_conns (delete service (conns cm)) cm) w0)
            = with_mgr (fun cm => set_conns (delete service (conns cm)) cm) w0).
  { intros w0. unfold with_mgr, set_conns. simpl. by rewrite delete_delete_eq. }
  destruct (conns (mgr w) !! service) as [old|] eqn:Hs.
  - destruct (decide (target old = tgt)) as [Ht|Ht].
    + exists w. by rewrite (replaceConn_same closeErr w service None tgt old Hs Ht).
    + destruct (Hok _ _ Hs) as [hold Hc].
      rewrite (replaceConn_swap closeErr w service None tgt old hold Hs Ht Hc).
      eexists. split; [reflexivity|].
      rewrite replaceConn_fresh by apply Hd. by rewrite Hidem.
  - rewrite (replaceConn_fresh closeErr w service None tgt Hs).
    eexists. split; [reflexivity|].
    rewrite replaceConn_fresh by apply Hd. by rewrite Hidem.
Qed.

Lemma replaceConn_nil_idempotent_witness :
  exists w',
    replaceConn mockClose "users" None "" (world_with pool_users) = Done tt w' /\
    replaceConn mockClose "users" None "" w' = Done tt w'.
Proof.
  apply (replaceConn_nil_idempotent mockClose (world_with pool_users) "users" "").
  apply pool_ok_singleton.
Defined.

(** X17: after [replaceConn] with a non-nil connection on a pool whose
    entries all hold a connection, the service has an entry under the
    requested target and [GetConn] succeeds with a non-nil connection: the
    one passed in, or the one already filed under that target, in which case
    the one passed in has been closed.  On a service without an entry the
    connection passed in is installed and nothing is closed. *)
Theorem replaceConn_installs_requested_target
    (closeErr : gmultiset ClientConn -> ClientConn -> option error)
    (w : World) (service : string) (h : ClientConn) (tgt : string) :
  pool_ok (mgr w) ->
  exists w' mc kept,
    replaceConn closeErr service (Some h) tgt w = Done tt w' /\
    conns (mgr w') !! service = Some mc /\
    target mc = tgt /\
    GetConn service w' = Done (Some kept, None) w' /\
    conn mc = Some kept /\
    (kept = h \/
     (conns (mgr w) !! service = Some mc /\ closeCount h w' = S (closeCount h w))) /\
    (conns (mgr w) !! service = None ->
     kept = h /\ closeCalls w' = closeCalls w).
Proof.
  intros Hok.
  destruct (replaceConn_returns closeErr w service (Some h) tgt Hok) as (w' & Hrun & _).
  destruct (replaceConn_some_entry closeErr w w' service h tgt Hok Hrun)
    as (mc & Hmc & Ht & Hcases).
  pose proof (replaceConn_pool_ok closeErr w w' service (Some h) tgt Hok Hrun) as Hok'.
  destruct (Hok' _ _ Hmc) as [kept Hkept].
  exists w', mc, kept. split; [exact Hrun|]. split; [exact Hmc|]. split; [exact Ht|].
  split; [by rewrite GetConn_run, Hmc, Hkept|]. split; [exact Hkept|]. split.
  - destruct Hcases as [->|Hold]; [left|by right]. simpl in Hkept. congruence.
  - intros Hs. rewrite (replaceConn_fresh closeErr w service (Some h) tgt Hs) in Hrun.
    injection Hrun as <-. split; [|done].
    simpl in Hmc. rewrite lookup_insert_eq in Hmc. injection Hmc as <-.
    simpl in Hkept. congruence.
Qed.

Lemma replaceConn_installs_requested_target_witness :
  exists w' mc kept,
    replaceConn mockClose "svc" (Some 1%positive) "target1" (world_with ∅)
      = Done tt w' /\
    conns (mgr w') !! "svc" = Some mc /\
    target mc = "target1" /\
    GetConn "svc" w' = Done (Some kept, None) w' /\
    conn mc = Some kept /\
    (kept = 1%positive \/
     (conns (mgr (world_with ∅)) !! "svc" = Some mc /\
      closeCount 1%positive w' = S (closeCount 1%positive (world_with ∅)))) /\
    (conns (mgr (world_with ∅)) !! "svc" = None ->
     kept = 1%positive /\ closeCalls w' = closeCalls (world_with ∅)).
Proof.
  apply (replaceConn_installs_requested_target mockClose (world_with ∅) "svc"
           1%positive "target1").
  by apply pool_ok_empty.
Defined.


